(** * Folve: on-the-fly audio convolution behind a FUSE filesystem

    A shallow embedding of the file filters ([PassThroughFilter],
    [SndFileFilter]), of the open-file map ([create_filter],
    [close_filter]) and of [SoundProcessor::Process], followed by the
    properties of the specification that concern them.

    Conventions.  C integers are [Z] with the conversions written out
    ([to_int32], [to_uint64], ...).  Bytes are [Byte.byte].  [float] and
    [double] values are [spec_float] (IEEE 754 binary32 and binary64 of the
    Standard Library, round to nearest even).  A file behind a descriptor is
    the list of its bytes and [pread] reads from it. *)

From Stdlib Require Import ZArith Lia Bool List Sorted.
From Stdlib Require Import Floats.SpecFloat.
From Stdlib Require Import Strings.Byte.
From stdpp Require Import base option list strings gmap.

Local Open Scope Z_scope.

(** ** Machine integers *)

Module CInt.

Definition INT_MIN : Z := - 2 ^ 31.
Definition INT_MAX : Z := 2 ^ 31 - 1.
Definition INT64_MIN : Z := - 2 ^ 63.
Definition INT64_MAX : Z := 2 ^ 63 - 1.

(** Conversion to [int]: the low 32 bits, read as two's complement. *)
Definition to_int32 (z : Z) : Z := (z + 2 ^ 31) mod 2 ^ 32 - 2 ^ 31.

(** Conversion to [off_t], [long], [ssize_t] (LP64). *)
Definition to_int64 (z : Z) : Z := (z + 2 ^ 63) mod 2 ^ 64 - 2 ^ 63.

(** Conversion to [size_t], [unsigned long] (LP64). *)
Definition to_uint64 (z : Z) : Z := z mod 2 ^ 64.

End CInt.

(** ** The constants of sndfile.h that the filter uses *)

Module Sndfile.

Definition SF_FORMAT_WAV : Z := 0x010000.
Definition SF_FORMAT_FLAC : Z := 0x170000.
Definition SF_FORMAT_OGG : Z := 0x200000.

Definition SF_FORMAT_PCM_16 : Z := 0x0002.
Definition SF_FORMAT_PCM_32 : Z := 0x0004.
Definition SF_FORMAT_FLOAT : Z := 0x0006.

Definition SF_ENDIAN_FILE : Z := 0x00000000.
Definition SF_ENDIAN_LITTLE : Z := 0x10000000.
Definition SF_ENDIAN_BIG : Z := 0x20000000.
Definition SF_ENDIAN_CPU : Z := 0x30000000.

Definition SF_FORMAT_SUBMASK : Z := 0x0000FFFF.
Definition SF_FORMAT_TYPEMASK : Z := 0x0FFF0000.
Definition SF_FORMAT_ENDMASK : Z := 0x30000000.

(** [struct SF_INFO]. *)
Record SF_INFO : Type := mkSF_INFO {
  frames : Z;
  samplerate : Z;
  channels : Z;
  format : Z;
  sections : Z;
  seekable : Z
}.

End Sndfile.

(** ** IEEE 754 arithmetic as the compiler emits it for [float] and [double] *)

Module IEEE.

Definition prec32 : Z := 24.
Definition emax32 : Z := 128.
Definition prec64 : Z := 53.
Definition emax64 : Z := 1024.

(** Integer to [double] and to [float]. *)
Definition double_of_Z (z : Z) : spec_float := binary_normalize prec64 emax64 z 0 false.
Definition float_of_Z (z : Z) : spec_float := binary_normalize prec32 emax32 z 0 false.

(** [double] to [float], as in [const float x = <double expression>]. *)
Definition float_of_double (x : spec_float) : spec_float :=
  match x with
  | S754_finite s m e => binary_normalize prec32 emax32 (cond_Zopp s (Z.pos m)) e s
  | _ => x
  end.

Definition dmul : spec_float -> spec_float -> spec_float := SFmul prec64 emax64.
Definition ddiv : spec_float -> spec_float -> spec_float := SFdiv prec64 emax64.
Definition fmul : spec_float -> spec_float -> spec_float := SFmul prec32 emax32.

(** The integer part of a finite value, rounded towards zero. *)
Definition trunc (x : spec_float) : option Z :=
  match x with
  | S754_zero _ => Some 0
  | S754_finite s m e =>
      Some (cond_Zopp s (if 0 <=? e then Z.pos m * 2 ^ e else Z.pos m / 2 ^ (- e)))
  | _ => None
  end.

(** Floating point to [off_t].  Where the integer part does not fit (or
    there is none: infinities, NaN) C++ leaves the result undefined; x86-64
    ([cvttsd2si], [cvttss2si]) delivers the "integer indefinite" value
    [INT64_MIN], which is what the model takes. *)
Definition to_off_t (x : spec_float) : Z :=
  match trunc x with
  | Some z => if (CInt.INT64_MIN <=? z) && (z <=? CInt.INT64_MAX) then z else CInt.INT64_MIN
  | None => CInt.INT64_MIN
  end.

(** The [double] literal [0.4], i.e. [0x3FD999999999999A]. *)
Definition d0_4 : spec_float := S754_finite false 7205759403792794 (-54).

(** The [float] literal [0.0]. *)
Definition fzero : spec_float := S754_zero false.

End IEEE.

(** ** Descriptors and the system calls made on them *)

Module Posix.

Definition EIO : Z := 5.
Definition EBADF : Z := 9.
Definition EINVAL : Z := 22.

(** [struct stat], the fields a client of the filesystem looks at. *)
Record stat : Type := mkStat {
  st_mode : Z;
  st_size : Z;
  st_mtime : Z
}.

Definition set_st_size (sz : Z) (st : stat) : stat :=
  {| st_mode := st_mode st; st_size := sz; st_mtime := st_mtime st |}.

(** What is behind a descriptor: a regular file with its bytes and
    attributes, or a descriptor on which every call fails with [errno]
    (closed in the meantime: [EBADF]; failing medium: [EIO]). *)
Inductive filedes : Type :=
| FdFile (content : list byte) (attrs : stat)
| FdFailing (errno : Z).

(** A system call either succeeds with a value or returns [-1] and sets
    [errno]. *)
Inductive sysret (A : Type) : Type :=
| SysOk (a : A)
| SysErr (errno : Z).
Arguments SysOk {A} a.
Arguments SysErr {A} errno.

(** [pread(fd, buf, count, offset)]: the bytes placed in [buf]; the call
    returns their number. *)
Definition pread (fd : filedes) (count offset : Z) : sysret (list byte) :=
  match fd with
  | FdFile content _ =>
      if offset <? 0 then SysErr EINVAL
      else SysOk (take (Z.to_nat count) (drop (Z.to_nat offset) content))
  | FdFailing e => SysErr e
  end.

(** The value [pread] returns. *)
Definition pread_ret (r : sysret (list byte)) : Z :=
  match r with
  | SysOk bytes => Z.of_nat (length bytes)
  | SysErr _ => -1
  end.

(** The bytes [pread] left in the caller's buffer. *)
Definition pread_data (r : sysret (list byte)) : list byte :=
  match r with
  | SysOk bytes => bytes
  | SysErr _ => []
  end.

Definition fstat (fd : filedes) : sysret stat :=
  match fd with
  | FdFile _ attrs => SysOk attrs
  | FdFailing e => SysErr e
  end.

Definition close (fd : filedes) : sysret unit :=
  match fd with
  | FdFile _ _ => SysOk tt
  | FdFailing e => SysErr e
  end.

(** The value a call returns ([0] on success for [fstat] and [close]) and
    the [errno] it leaves. *)
Definition ret0 {A} (r : sysret A) : Z :=
  match r with SysOk _ => 0 | SysErr _ => -1 end.

Definition errno_of {A} (r : sysret A) : Z :=
  match r with SysOk _ => 0 | SysErr e => e end.

End Posix.

(** ** The conversion buffer *)

Module ConversionBuffer.

(** Modelled from the spec: conversion-buffer.h and conversion-buffer.cc
    are not among the sources.  The byte log [B], the flag gating what
    arrives through the encoder's write callback and the one-shot
    [header_finished] signal (the offset at which the payload starts). *)
Record t : Type := mk {
  B : list byte;
  sndfile_writes_enabled : bool;
  header_finished : option Z
}.

(** Modelled from the spec: the state of a conversion buffer that has just
    been constructed, before its encoder has written anything. *)
Definition new_ConversionBuffer : t :=
  {| B := []; sndfile_writes_enabled := true; header_finished := None |}.

(** Modelled from the spec: [FileSize()], the current [|B|]. *)
Definition FileSize (b : t) : Z := Z.of_nat (length (B b)).

(** Modelled from the spec: [Append(bytes)] appends unconditionally. *)
Definition Append (bytes : list byte) (b : t) : t :=
  {| B := B b ++ bytes;
     sndfile_writes_enabled := sndfile_writes_enabled b;
     header_finished := header_finished b |}.

(** Modelled from the spec: [SndfileWriteCallback(bytes)] appends only if
    [sndfile_writes_enabled], else drops the bytes silently. *)
Definition SndfileWriteCallback (bytes : list byte) (b : t) : t :=
  if sndfile_writes_enabled b then Append bytes b else b.

(** Modelled from the spec: [set_sndfile_writes_enabled(flag)]. *)
Definition set_sndfile_writes_enabled (flag : bool) (b : t) : t :=
  {| B := B b; sndfile_writes_enabled := flag; header_finished := header_finished b |}.

(** Modelled from the spec: [HeaderFinished()], the one-shot barrier; the
    payload starts at the size the buffer has when it is first called. *)
Definition HeaderFinished (b : t) : t :=
  {| B := B b;
     sndfile_writes_enabled := sndfile_writes_enabled b;
     header_finished :=
       match header_finished b with
       | Some off => Some off
       | None => Some (FileSize b)
       end |}.

End ConversionBuffer.

(** ** PassThroughFilter *)

Module PassThroughFilter.
Import Posix.

Record t : Type := mk { filedes_ : filedes }.

(** [Read(buf, size, offset)]: the value returned and the bytes left in
    [buf]. *)
Definition Read (f : t) (size offset : Z) : Z * list byte :=
  let r := pread (filedes_ f) size offset in
  let result := CInt.to_int32 (pread_ret r) in
  (if result =? -1 then - errno_of r else result, pread_data r).

(** [Stat(st)]: the value returned and [*st] afterwards. *)
Definition Stat (f : t) (st : stat) : Z * stat :=
  let r := fstat (filedes_ f) in
  (ret0 r, match r with SysOk attrs => attrs | SysErr _ => st end).

Definition Close (f : t) : Z :=
  let r := close (filedes_ f) in
  if ret0 r =? -1 then - errno_of r else 0.

End PassThroughFilter.

(** ** SndFileFilter *)

Module SndFileFilter.
Import Posix Sndfile.

(** FLAC/format.h: the metadata block types the header copy looks at. *)
Definition FLAC__METADATA_TYPE_STREAMINFO : Z := 0.
Definition FLAC__METADATA_TYPE_PADDING : Z := 1.
Definition FLAC__METADATA_TYPE_SEEKTABLE : Z := 3.

(** sndfile.h: the range of string tags. *)
Definition SF_STR_FIRST : Z := 0x01.
Definition SF_STR_LAST : Z := 0x10.

(** The decoder [snd_in_], as far as the filter asks it: its string tags. *)
Record decoder : Type := mkDecoder {
  sf_get_string : Z -> option string
}.

(** The encoder [snd_out_]: the string tags set on it, the header bytes it
    hands to its write callback when it writes its header, and whether it
    has written its header. *)
Record encoder : Type := mkEncoder {
  enc_strings : gmap Z string;
  enc_header : gmap Z string -> list byte;
  enc_header_written : bool
}.

Definition sf_set_string (i : Z) (s : string) (e : encoder) : encoder :=
  {| enc_strings := <[i := s]> (enc_strings e); enc_header := enc_header e;
     enc_header_written := enc_header_written e |}.

(** The encoder once it has written its header.  flac.c: the header is
    written once ([flac_write_header] takes itself out of the encoder when it
    has run). *)
Definition header_written (e : encoder) : encoder :=
  {| enc_strings := enc_strings e; enc_header := enc_header e;
     enc_header_written := true |}.

(** [sf_writef_float(snd_out_, ...)] on the side of the encoder, for frames
    that encode as [audio]: the encoder afterwards and what it hands to its
    write callback.  sndfile.c: a write that finds the header not yet written
    writes the header first. *)
Definition encoder_writes (audio : list byte) (e : encoder) : encoder * list byte :=
  (header_written e,
   if enc_header_written e then audio else enc_header e (enc_strings e) ++ audio).

Record t : Type := mk {
  filedes_ : filedes;
  snd_in_ : decoder;
  total_frames_ : Z;
  file_stat_ : stat;
  start_estimating_size_ : Z;
  error_ : bool;
  copy_flac_header_ : bool;
  output_buffer_ : ConversionBuffer.t;
  channels_ : Z;
  snd_out_ : option encoder;
  input_frames_left_ : Z
}.

Definition set_file_stat (st : stat) (h : t) : t :=
  {| filedes_ := filedes_ h; snd_in_ := snd_in_ h; total_frames_ := total_frames_ h;
     file_stat_ := st;
     start_estimating_size_ := start_estimating_size_ h; error_ := error_ h;
     copy_flac_header_ := copy_flac_header_ h; output_buffer_ := output_buffer_ h;
     channels_ := channels_ h; snd_out_ := snd_out_ h;
     input_frames_left_ := input_frames_left_ h |}.

Definition set_output_buffer (b : ConversionBuffer.t) (h : t) : t :=
  {| filedes_ := filedes_ h; snd_in_ := snd_in_ h; total_frames_ := total_frames_ h;
     file_stat_ := file_stat_ h;
     start_estimating_size_ := start_estimating_size_ h; error_ := error_ h;
     copy_flac_header_ := copy_flac_header_ h; output_buffer_ := b;
     channels_ := channels_ h; snd_out_ := snd_out_ h;
     input_frames_left_ := input_frames_left_ h |}.

Definition set_input_frames_left (n : Z) (h : t) : t :=
  {| filedes_ := filedes_ h; snd_in_ := snd_in_ h; total_frames_ := total_frames_ h;
     file_stat_ := file_stat_ h;
     start_estimating_size_ := start_estimating_size_ h; error_ := error_ h;
     copy_flac_header_ := copy_flac_header_ h; output_buffer_ := output_buffer_ h;
     channels_ := channels_ h; snd_out_ := snd_out_ h;
     input_frames_left_ := n |}.

Definition set_snd_out (e : option encoder) (err : bool) (h : t) : t :=
  {| filedes_ := filedes_ h; snd_in_ := snd_in_ h; total_frames_ := total_frames_ h;
     file_stat_ := file_stat_ h;
     start_estimating_size_ := start_estimating_size_ h; error_ := err;
     copy_flac_header_ := copy_flac_header_ h; output_buffer_ := output_buffer_ h;
     channels_ := channels_ h; snd_out_ := e;
     input_frames_left_ := input_frames_left_ h |}.

(** *** The constructor *)

(** The format of the sound file the conversion buffer is to produce: the
    [out_info] of the constructor. *)
Definition output_info (in_info : SF_INFO) : SF_INFO :=
  let out_format :=
    if Z.land (format in_info) SF_FORMAT_TYPEMASK =? SF_FORMAT_OGG then
      Z.lor SF_FORMAT_FLAC SF_FORMAT_PCM_16
    else if (Z.land (format in_info) SF_FORMAT_TYPEMASK =? SF_FORMAT_WAV)
            && negb (Z.land (format in_info) SF_FORMAT_SUBMASK =? SF_FORMAT_PCM_16) then
      Z.lor (Z.lor SF_FORMAT_WAV SF_FORMAT_FLOAT) SF_ENDIAN_CPU
    else
      format in_info in
  {| frames := frames in_info; samplerate := samplerate in_info;
     channels := channels in_info; format := out_format;
     sections := sections in_info; seekable := 0 |}.

(** [fstat(filedes_, &file_stat_)]: the constructor does not look at what
    [fstat] returns, and a failing [fstat] writes nothing, so that
    [file_stat_] is left with what the memory of the object held,
    [uninitialised]. *)
Definition initial_stat (fd : filedes) (uninitialised : stat) : stat :=
  match fstat fd with
  | SysOk attrs => attrs
  | SysErr _ => uninitialised
  end.

(** [start_estimating_size_ = 0.4 * file_stat_.st_size]: the product is taken
    in [double] and converted to [off_t]. *)
Definition estimating_threshold (st : stat) : Z :=
  IEEE.to_off_t (IEEE.dmul IEEE.d0_4 (IEEE.double_of_Z (st_size st))).

(** The filter as the constructor leaves it, and the [out_info] it passes to
    [new ConversionBuffer(this, out_info)]; [uninitialised] is what the
    memory of the object holds for [file_stat_] before [fstat]. *)
Definition new_SndFileFilter (fd : filedes) (snd_in : decoder) (in_info : SF_INFO)
    (uninitialised : stat) : t * SF_INFO :=
  ({| filedes_ := fd; snd_in_ := snd_in;
      total_frames_ := CInt.to_int32 (frames in_info);
      file_stat_ := initial_stat fd uninitialised;
      start_estimating_size_ := estimating_threshold (initial_stat fd uninitialised);
      error_ := false;
      copy_flac_header_ := Z.land (format in_info) SF_FORMAT_TYPEMASK =? SF_FORMAT_FLAC;
      output_buffer_ := ConversionBuffer.new_ConversionBuffer;
      channels_ := channels in_info;
      snd_out_ := None;
      input_frames_left_ := CInt.to_int32 (frames in_info) |},
   output_info in_info).

(** *** Read *)

(** What [Read(buf, size, offset)] does: it returns a value itself, having
    written [written] to the front of [buf], or it hands the call on to
    [output_buffer_->Read(buf, size, offset)], which may pull more sound
    through decoder, convolver and encoder. *)
Inductive read_result : Type :=
| ReadReturns (ret : Z) (written : list byte)
| ReadFromBuffer (size offset : Z).

(** [size] is a [size_t] and [offset] an [off_t]: their sum is taken in
    [size_t], cast to [int] and compared, as a [long], with [st_size]. *)
Definition Read (h : t) (size offset : Z) : read_result :=
  if error_ h then ReadReturns (-1) []
  else if (ConversionBuffer.FileSize (output_buffer_ h) <? offset)
          && (CInt.to_int32 (CInt.to_uint64 (offset + size)) =? st_size (file_stat_ h))
  then ReadReturns (CInt.to_int32 size) (repeat x00 (Z.to_nat size))
  else ReadFromBuffer size offset.

(** *** Stat *)

(** The estimate of the final size: [new_size] of [Stat] after
    [new_size += 16384]. *)
Definition estimated_size (total_frames frames_done file_size : Z) : Z :=
  let estimated_end :=
    IEEE.float_of_double
      (IEEE.ddiv (IEEE.dmul (IEEE.double_of_Z 1) (IEEE.double_of_Z total_frames))
                 (IEEE.double_of_Z frames_done)) in
  let new_size := IEEE.to_off_t (IEEE.fmul estimated_end (IEEE.float_of_Z file_size)) in
  CInt.to_int64 (new_size + 16384).

(** [Stat(st)]: the filter afterwards, the value returned and [*st]. *)
Definition Stat (h : t) : t * (Z * stat) :=
  let file_size := ConversionBuffer.FileSize (output_buffer_ h) in
  let h' :=
    if file_size >? start_estimating_size_ h then
      let frames_done := CInt.to_int32 (total_frames_ h - input_frames_left_ h) in
      if frames_done >? 0 then
        let new_size := estimated_size (total_frames_ h) frames_done file_size in
        if new_size >? st_size (file_stat_ h)
        then set_file_stat (set_st_size new_size (file_stat_ h)) h
        else h
      else h
    else h in
  (h', (0, file_stat_ h')).

(** *** AddMoreSoundData *)

(** One step of the producer, as far as the state of the filter goes: [r] is
    what [sf_readf_float] returned and [encoded] what the encoder handed to
    its write callback for the [r] frames of [sf_writef_float].  The samples
    themselves (de-interleaving, convolution, interleaving) leave no trace in
    the fields modelled here. *)
Definition AddMoreSoundData (r : Z) (encoded : list byte) (h : t) : t * bool :=
  if input_frames_left_ h =? 0 then (h, false)
  else
    let h1 := set_output_buffer
                (ConversionBuffer.SndfileWriteCallback encoded (output_buffer_ h)) h in
    let h2 := set_input_frames_left (CInt.to_int32 (input_frames_left_ h1 - r)) h1 in
    (h2, negb (input_frames_left_ h2 =? 0)).

(** *** The FLAC header *)

(** An [unsigned char] as an integer. *)
Definition b2z (b : byte) : Z := Z.of_N (Byte.to_N b).

(** [CopyBytes(fd, pos, out, len)].  Every round of the loop takes at least
    one byte off [len], so [len] rounds are enough. *)
Fixpoint CopyBytes_loop (rounds : nat) (fd : filedes) (pos : Z)
    (out : ConversionBuffer.t) (len : Z) : ConversionBuffer.t :=
  match rounds with
  | O => out
  | S rounds' =>
      if len >? 0 then
        let rd := pread fd (Z.min 256 len) pos in
        let r := pread_ret rd in
        if r <=? 0 then out
        else CopyBytes_loop rounds' fd (pos + r)
               (ConversionBuffer.Append (pread_data rd) out) (len - r)
      else out
  end.

Definition CopyBytes (fd : filedes) (pos : Z) (out : ConversionBuffer.t) (len : Z)
    : ConversionBuffer.t :=
  CopyBytes_loop (Z.to_nat len) fd pos out len.

(** The fields of the four header bytes of a metadata block. *)
Definition header_is_last (h0 : byte) : bool := negb (Z.land (b2z h0) 0x80 =? 0).
Definition header_type (h0 : byte) : Z := Z.land (b2z h0) 0x7F.
Definition header_byte_len (h1 h2 h3 : byte) : Z :=
  Z.shiftl (b2z h1) 16 + Z.shiftl (b2z h2) 8 + b2z h3.

(** The [while] loop of [CopyFlacHeader]: the buffer and
    [need_finish_padding] when it is left. *)
Fixpoint CopyFlacHeader_loop (rounds : nat) (fd : filedes) (pos : Z)
    (need_finish_padding : bool) (out : ConversionBuffer.t)
    : ConversionBuffer.t * bool :=
  match rounds with
  | O => (out, need_finish_padding)
  | S rounds' =>
      match pread_data (pread fd 4 pos) with
      | [h0; h1; h2; h3] =>
          let header := [h0; h1; h2; h3] in
          let pos := pos + 4 in
          let is_last := header_is_last h0 in
          let type := header_type h0 in
          let byte_len := header_byte_len h1 h2 h3 in
          let '(out, need_finish_padding) :=
            if (type =? FLAC__METADATA_TYPE_STREAMINFO) && (byte_len =? 34) then
              (Nat.iter 16 (ConversionBuffer.Append [x00])
                 (CopyBytes fd pos (ConversionBuffer.Append header out) (byte_len - 16)),
               false)
            else if type =? FLAC__METADATA_TYPE_SEEKTABLE then
              (out, is_last)
            else
              (CopyBytes fd pos (ConversionBuffer.Append header out) byte_len, false) in
          let pos := pos + byte_len in
          if is_last then (out, need_finish_padding)
          else CopyFlacHeader_loop rounds' fd pos need_finish_padding out
      | _ => (out, need_finish_padding)
      end
  end.

(** The bytes of [fLaC]. *)
Definition fLaC : list byte := [x66; x4c; x61; x43].

(** Every round of the loop moves [pos] on by at least four bytes and a round
    that finds fewer than four bytes left is the last, so there are no more
    rounds than the file has bytes. *)
Definition header_rounds (fd : filedes) : nat :=
  match fd with
  | FdFile content _ => length content
  | FdFailing _ => 1
  end.

Definition CopyFlacHeader (h : t) (out_buffer : ConversionBuffer.t) : ConversionBuffer.t :=
  let out := ConversionBuffer.Append fLaC out_buffer in
  let '(out, need_finish_padding) :=
    CopyFlacHeader_loop (header_rounds (filedes_ h)) (filedes_ h) 4 false out in
  if need_finish_padding
  then ConversionBuffer.Append [x81; x00; x00; x00] out
  else out.

(** [GenerateHeaderFromInputFile]: the buffer and the encoder afterwards. *)
Definition GenerateHeaderFromInputFile (h : t) (snd_out : encoder)
    (out_buffer : ConversionBuffer.t) : ConversionBuffer.t * encoder :=
  (ConversionBuffer.set_sndfile_writes_enabled true out_buffer,
   fold_left
     (fun e i => match sf_get_string (snd_in_ h) i with
                 | Some s => sf_set_string i s e
                 | None => e
                 end)
     (map (fun k => SF_STR_FIRST + Z.of_nat k)
          (seq 0 (Z.to_nat (SF_STR_LAST - SF_STR_FIRST + 1))))
     snd_out).

(** [sf_command(snd_out_, SFC_UPDATE_HEADER_NOW, NULL, 0)]: the encoder hands
    its header to the write callback of the buffer, and has written it.  The
    encoder and the buffer afterwards. *)
Definition sf_update_header_now (snd_out : encoder) (out_buffer : ConversionBuffer.t)
    : encoder * ConversionBuffer.t :=
  (header_written snd_out,
   ConversionBuffer.SndfileWriteCallback (enc_header snd_out (enc_strings snd_out)) out_buffer).

(** [SetOutputSoundfile(out_buffer, sndfile)]: the filter and the buffer
    afterwards; [sndfile] is [None] for [NULL]. *)
Definition SetOutputSoundfile (h : t) (out_buffer : ConversionBuffer.t)
    (sndfile : option encoder) : t * ConversionBuffer.t :=
  match sndfile with
  | None => (set_snd_out None true h, out_buffer)
  | Some snd_out =>
      let '(out_buffer, snd_out) :=
        if copy_flac_header_ h then
          (CopyFlacHeader h (ConversionBuffer.set_sndfile_writes_enabled false out_buffer),
           snd_out)
        else
          GenerateHeaderFromInputFile h snd_out
            (ConversionBuffer.set_sndfile_writes_enabled true out_buffer) in
      let '(snd_out, out_buffer) := sf_update_header_now snd_out out_buffer in
      let out_buffer := ConversionBuffer.set_sndfile_writes_enabled true out_buffer in
      (set_snd_out (Some snd_out) (error_ h) h, ConversionBuffer.HeaderFinished out_buffer)
  end.

(** The FLAC path in the order in which the specification tells it: the
    header is copied, encoder writes are enabled, the encoder's header is
    flushed through, and [HeaderFinished] is marked.  For comparison with
    [SetOutputSoundfile]. *)
Definition SetOutputSoundfile_enable_then_flush (h : t) (out_buffer : ConversionBuffer.t)
    (snd_out : encoder) : t * ConversionBuffer.t :=
  let out_buffer :=
    CopyFlacHeader h (ConversionBuffer.set_sndfile_writes_enabled false out_buffer) in
  let out_buffer := ConversionBuffer.set_sndfile_writes_enabled true out_buffer in
  let '(snd_out, out_buffer) := sf_update_header_now snd_out out_buffer in
  (set_snd_out (Some snd_out) (error_ h) h, ConversionBuffer.HeaderFinished out_buffer).

(** [Close()]: the filter afterwards and the value returned. *)
Definition Close (h : t) : t * Z :=
  let h' := set_output_buffer
              (ConversionBuffer.set_sndfile_writes_enabled false (output_buffer_ h)) h in
  let r := close (filedes_ h) in
  (h', if ret0 r =? -1 then - errno_of r else 0).

(** *** The life of a filter *)

(** Whether [Stat] takes a new estimate: the two tests that guard it. *)
Definition estimating (h : t) : bool :=
  (ConversionBuffer.FileSize (output_buffer_ h) >? start_estimating_size_ h)
  && (CInt.to_int32 (total_frames_ h - input_frames_left_ h) >? 0).

(** The calls made on a filter while it is open.  A [Read] that goes to the
    conversion buffer shows as the [AddMoreSoundData] calls that the buffer
    makes for it. *)
Inductive event : Type :=
| CallStat
| CallRead (size offset : Z)
| CallAddMoreSoundData (r : Z) (encoded : list byte).

(** The sizes that the [Stat] calls among the events report, in order. *)
Fixpoint reported_sizes (h : t) (events : list event) : list Z :=
  match events with
  | [] => []
  | CallStat :: events' =>
      let '(h', (_, st)) := Stat h in st_size st :: reported_sizes h' events'
  | CallRead _ _ :: events' => reported_sizes h events'
  | CallAddMoreSoundData r encoded :: events' =>
      reported_sizes (fst (AddMoreSoundData r encoded h)) events'
  end.

(** Whether none of the [Stat] calls among the events finds the two tests
    passed. *)
Fixpoint not_yet_estimating (h : t) (events : list event) : bool :=
  match events with
  | [] => true
  | CallStat :: events' => negb (estimating h) && not_yet_estimating (fst (Stat h)) events'
  | CallRead _ _ :: events' => not_yet_estimating h events'
  | CallAddMoreSoundData r encoded :: events' =>
      not_yet_estimating (fst (AddMoreSoundData r encoded h)) events'
  end.

End SndFileFilter.

(** ** The metadata blocks of a FLAC file *)

Module FlacMetadata.
Import SndFileFilter.

(** A metadata block: its four header bytes (the last-block flag and the
    seven bits of the type, then the length of the payload as 24 bits, big
    end first) and its payload. *)
Record block : Type := mkBlock {
  hdr0 : byte;
  hdr1 : byte;
  hdr2 : byte;
  hdr3 : byte;
  payload : list byte
}.

Definition block_header (b : block) : list byte := [hdr0 b; hdr1 b; hdr2 b; hdr3 b].
Definition block_is_last (b : block) : bool := header_is_last (hdr0 b).
Definition block_type (b : block) : Z := header_type (hdr0 b).
Definition block_len (b : block) : Z := header_byte_len (hdr1 b) (hdr2 b) (hdr3 b).

(** The bytes of a block and of a chain of blocks in a file. *)
Definition encode_block (b : block) : list byte := block_header b ++ payload b.
Definition encode_chain (bs : list block) : list byte := flat_map encode_block bs.

(** The payload is as long as the header says. *)
Definition well_formed_block (b : block) : Prop :=
  Z.of_nat (length (payload b)) = block_len b.

(** A chain as a FLAC file has it: at least one block, the last-block flag
    set on the last block and on no other. *)
Fixpoint well_formed_chain (bs : list block) : Prop :=
  match bs with
  | [] => False
  | b :: bs' =>
      well_formed_block b /\
      match bs' with
      | [] => block_is_last b = true
      | _ :: _ => block_is_last b = false /\ well_formed_chain bs'
      end
  end.

(** Reading a chain back from the bytes that follow the [fLaC] marker: the
    blocks up to and including the one flagged as last, and the bytes after
    them.  [None] where the bytes end before the chain does. *)
Fixpoint parse_chain (rounds : nat) (bytes : list byte) : option (list block * list byte) :=
  match rounds with
  | O => None
  | S rounds' =>
      match bytes with
      | h0 :: h1 :: h2 :: h3 :: rest =>
          let len := Z.to_nat (header_byte_len h1 h2 h3) in
          if (length rest <? len)%nat then None
          else
            let b := mkBlock h0 h1 h2 h3 (take len rest) in
            if header_is_last h0 then Some ([b], drop len rest)
            else match parse_chain rounds' (drop len rest) with
                 | Some (bs, tl) => Some (b :: bs, tl)
                 | None => None
                 end
      | _ => None
      end
  end.

(** *** What the specification says the header copy does to a chain *)

(** A STREAMINFO block of 34 bytes. *)
Definition is_streaminfo (b : block) : bool :=
  (block_type b =? FLAC__METADATA_TYPE_STREAMINFO) && (block_len b =? 34).

Definition is_seektable (b : block) : bool :=
  block_type b =? FLAC__METADATA_TYPE_SEEKTABLE.

(** The first 18 bytes of STREAMINFO, then 16 zero bytes in place of the MD5
    signature. *)
Definition redact_md5 (b : block) : block :=
  mkBlock (hdr0 b) (hdr1 b) (hdr2 b) (hdr3 b) (take 18 (payload b) ++ repeat x00 16).

(** STREAMINFO loses its signature, a SEEKTABLE is dropped, any other block
    is copied. *)
Definition splice_block (b : block) : list block :=
  if is_streaminfo b then [redact_md5 b]
  else if is_seektable b then []
  else [b].

(** An empty PADDING block with the last-block flag set. *)
Definition padding_block : block := mkBlock x81 x00 x00 x00 [].

Definition last_is_seektable (bs : list block) : bool :=
  match last bs with
  | Some b => negb (is_streaminfo b) && is_seektable b
  | None => false
  end.

(** The chain of the output: the blocks spliced one by one, and the padding
    block when the SEEKTABLE that was dropped was the last block. *)
Definition splice_chain (bs : list block) : list block :=
  flat_map splice_block bs ++ (if last_is_seektable bs then [padding_block] else []).

(** A chain that the end of the file cuts short: blocks with their payload,
    none of them flagged as last. *)
Definition unterminated_chain (bs : list block) : Prop :=
  Forall (fun b => well_formed_block b /\ block_is_last b = false) bs.

End FlacMetadata.

(** ** The map of open files: create_filter and close_filter *)

Module FilterInterface.

(** A [FileFilter*]: the address of a filter object. *)
Definition filter_ptr : Type := N.

(** The file scope variable [open_files_]. *)
Record state : Type := mkState {
  open_files_ : gmap string filter_ptr
}.

Definition initial : state := {| open_files_ := ∅ |}.

(** [create_filter(filedes, fs_path, underlying_path)], where [filter] is
    the address of the object that [CreateFilterFromFileType] has created
    with [new].  The state afterwards and the pointer returned. *)
Definition create_filter (fs_path : string) (filter : filter_ptr) (s : state)
    : state * filter_ptr :=
  ({| open_files_ := <[fs_path := filter]> (open_files_ s) |}, filter).

(** [close_filter(fs_path, filter)], where [close_result] is what
    [file_filter->Close()] returns.  The state afterwards and the value
    returned. *)
Definition close_filter (fs_path : string) (file_filter : filter_ptr) (close_result : Z)
    (s : state) : state * Z :=
  let result := close_result in
  let files :=
    match open_files_ s !! fs_path with
    | Some found => if decide (found = file_filter)
                    then delete fs_path (open_files_ s)
                    else open_files_ s
    | None => open_files_ s
    end in
  ({| open_files_ := files |}, result).

(** [fill_stat_by_filename(fs_path, st)] finds a filter or returns [-1]. *)
Definition find_open (fs_path : string) (s : state) : option filter_ptr :=
  open_files_ s !! fs_path.

(** The calls that the filesystem makes on the interface. *)
Inductive call : Type :=
| CreateFilter (fs_path : string) (filter : filter_ptr)
| CloseFilter (fs_path : string) (filter : filter_ptr).

Definition step (s : state) (c : call) : state :=
  match c with
  | CreateFilter fs_path filter => fst (create_filter fs_path filter s)
  | CloseFilter fs_path filter => fst (close_filter fs_path filter 0 s)
  end.

Definition run (calls : list call) (s : state) : state := fold_left step calls s.

(** The number of opens and of closes of a path among the calls. *)
Definition is_open_of (fs_path : string) (c : call) : bool :=
  match c with
  | CreateFilter p _ => bool_decide (p = fs_path)
  | CloseFilter _ _ => false
  end.

Definition is_close_of (fs_path : string) (c : call) : bool :=
  match c with
  | CreateFilter _ _ => false
  | CloseFilter p _ => bool_decide (p = fs_path)
  end.

Definition opens (fs_path : string) (calls : list call) : nat :=
  length (List.filter (is_open_of fs_path) calls).

Definition closes (fs_path : string) (calls : list call) : nat :=
  length (List.filter (is_close_of fs_path) calls).

(** The filters that are open, each with the path it was opened for, after
    calls made as the filesystem makes them. *)
Definition track (live : gmap filter_ptr string) (c : call) : gmap filter_ptr string :=
  match c with
  | CreateFilter fs_path filter => <[filter := fs_path]> live
  | CloseFilter _ filter => delete filter live
  end.

Definition open_filters (calls : list call) : gmap filter_ptr string :=
  fold_left track calls ∅.

(** How many of the open filters were opened for a path. *)
Definition count_open (fs_path : string) (live : gmap filter_ptr string) : nat :=
  size (filter (fun kv : filter_ptr * string => kv.2 = fs_path) live).

(** Calls as the filesystem makes them: [new] returns an address that is not
    that of a filter still open, and a filter is closed once, while open,
    with the path it was opened for. *)
Fixpoint matching (live : gmap filter_ptr string) (calls : list call) : Prop :=
  match calls with
  | [] => True
  | c :: calls' =>
      match c with
      | CreateFilter _ filter => live !! filter = None
      | CloseFilter fs_path filter => live !! filter = Some fs_path
      end ∧ matching (track live c) calls'
  end.

(** Every entry of the map is a filter that is open and was opened for the
    path of the entry. *)
Definition entries_open (s : state) (live : gmap filter_ptr string) : Prop :=
  forall (fs_path : string) (ptr : filter_ptr),
    open_files_ s !! fs_path = Some ptr -> live !! ptr = Some fs_path.

(** A call that leaves the entry of [ptr] under [fs_path] in the map: no
    [create_filter] for the path and no [close_filter] of the path with that
    pointer. *)
Definition leaves_entry (fs_path : string) (ptr : filter_ptr) (c : call) : Prop :=
  match c with
  | CreateFilter p _ => p <> fs_path
  | CloseFilter p f => ~ (p = fs_path /\ f = ptr)
  end.

End FilterInterface.

(** ** SoundProcessor *)

Module SoundProcessor.

(** A [float] sample. *)
Definition sample : Type := spec_float.

(** The convolver, as far as [Process] touches it: its input planes
    [inpdata(ch)] and its output planes [outdata(ch)], one per channel. *)
Record Convproc : Type := mkConvproc {
  inpdata : list (list sample);
  outdata : list (list sample)
}.

(** The fields of the processor; [fragm], [ninp] and [nout] are those of
    [zita_config_].  Counts and positions that are never negative are [nat];
    [output_pos_] can be [-1]. *)
Record t : Type := mk {
  fragm : nat;
  ninp : nat;
  nout : nat;
  convproc : Convproc;
  buffer_ : list sample;
  input_pos_ : nat;
  output_pos_ : Z;
  max_out_value_observed_ : sample
}.

Definition input_channels (sp : t) : nat := ninp sp.
Definition output_channels (sp : t) : nat := nout sp.

(** [memset] of [len] samples from index [start] on: all bits zero is
    [+0.0]. *)
Definition zero_samples (start len : nat) (buf : list sample) : list sample :=
  fold_left (fun b i => <[i := IEEE.fzero]> b) (seq start len) buf.

(** The loop that flattens the channels: plane [ch] of the convolver's input
    receives the samples of channel [ch]. *)
Definition flatten_channels (sp : t) (planes : list (list sample)) : list (list sample) :=
  fold_left
    (fun planes ch =>
       let dest := nth ch planes [] in
       let dest :=
         fold_left
           (fun dest j => <[j := nth (j * input_channels sp + ch)%nat (buffer_ sp) IEEE.fzero]> dest)
           (seq 0 (input_pos_ sp)) dest in
       <[ch := dest]> planes)
    (seq 0 (input_channels sp)) planes.

(** One round of the inner loop that joins the channels: sample [j] of
    plane [source] goes to the buffer and is compared with the peak. *)
Definition join_sample (channels ch : nat) (source : list sample)
    (acc : list sample * sample) (j : nat) : list sample * sample :=
  let '(buffer, max_out) := acc in
  let buffer := <[(j * channels + ch)%nat := nth j source IEEE.fzero]> buffer in
  let out_abs := nth j source IEEE.fzero in
  (buffer, if SFltb max_out out_abs then out_abs else max_out).

(** The loop that joins the channels again: the buffer and the peak
    afterwards. *)
Definition join_channels (sp : t) (planes : list (list sample))
    (buffer : list sample) (max_out : sample) : list sample * sample :=
  fold_left
    (fun acc ch =>
       fold_left (join_sample (output_channels sp) ch (nth ch planes []))
                 (seq 0 (input_pos_ sp)) acc)
    (seq 0 (output_channels sp)) (buffer, max_out).

(** [Process()], with the convolver's [process()] as the function
    [process]. *)
Definition Process (process : Convproc -> Convproc) (sp : t) : t :=
  let samples_missing := (fragm sp - input_pos_ sp)%nat in
  let buffer :=
    if (samples_missing =? 0)%nat then buffer_ sp
    else zero_samples (input_pos_ sp * input_channels sp)%nat
                      (samples_missing * input_channels sp)%nat (buffer_ sp) in
  let sp1 := {| fragm := fragm sp; ninp := ninp sp; nout := nout sp;
                convproc := convproc sp; buffer_ := buffer;
                input_pos_ := input_pos_ sp; output_pos_ := output_pos_ sp;
                max_out_value_observed_ := max_out_value_observed_ sp |} in
  let conv := {| inpdata := flatten_channels sp1 (inpdata (convproc sp1));
                 outdata := outdata (convproc sp1) |} in
  let conv := process conv in
  let '(buffer, max_out) :=
    join_channels sp1 (outdata conv) (buffer_ sp1) (max_out_value_observed_ sp1) in
  {| fragm := fragm sp; ninp := ninp sp; nout := nout sp;
     convproc := conv; buffer_ := buffer;
     input_pos_ := input_pos_ sp; output_pos_ := 0;
     max_out_value_observed_ := max_out |}.

(** [ResetMaxValues()]. *)
Definition ResetMaxValues (sp : t) : t :=
  {| fragm := fragm sp; ninp := ninp sp; nout := nout sp;
     convproc := convproc sp; buffer_ := buffer_ sp;
     input_pos_ := input_pos_ sp; output_pos_ := output_pos_ sp;
     max_out_value_observed_ := IEEE.fzero |}.

(** [Reset()], with the convolver's [reset()] as the function [reset]. *)
Definition Reset (reset : Convproc -> Convproc) (sp : t) : t :=
  ResetMaxValues
    {| fragm := fragm sp; ninp := ninp sp; nout := nout sp;
       convproc := reset (convproc sp); buffer_ := buffer_ sp;
       input_pos_ := 0; output_pos_ := -1;
       max_out_value_observed_ := max_out_value_observed_ sp |}.

(** The buffer as [Process] leaves it for the convolver: zero from the
    frames read on. *)
Definition padded_buffer (sp : t) : list sample :=
  if (fragm sp - input_pos_ sp =? 0)%nat then buffer_ sp
  else zero_samples (input_pos_ sp * input_channels sp)%nat
                    ((fragm sp - input_pos_ sp) * input_channels sp)%nat (buffer_ sp).

(** *** FillBuffer and WriteProcessed *)

(** The sound file that is read, [in]: the samples still to come,
    interleaved.  [sf_readf_float(in, ptr, frames)] delivers whole frames, as
    many as asked for or as are left: the samples placed at [ptr], the file
    afterwards and the number of frames.  Asked for a number of frames that
    is not positive it delivers none (sndfile.c returns 0 for
    [frames <= 0]). *)
Definition sf_readf_float (channels : nat) (input : list sample) (frames : Z)
    : list sample * list sample * nat :=
  let r := Nat.min (Z.to_nat frames) (length input / channels) in
  (take (r * channels) input, drop (r * channels) input, r).

(** The sound file that is written, [out]: the samples handed over so far.
    [sf_writef_float(out, ptr, frames)] with the samples found at [ptr]. *)
Definition sf_writef_float (channels : nat) (output : list sample) (at_ptr : list sample)
    (frames : nat) : list sample :=
  output ++ take (frames * channels) at_ptr.

(** [FillBuffer(in)]: [None] where the assertion fails; else the processor
    and the input afterwards and the value returned.  [samples_needed] is an
    [int] and the assertion is that it is not zero: it holds also where
    [input_pos_] is beyond [fragm] and [samples_needed] negative. *)
Definition FillBuffer (input : list sample) (sp : t) : option (t * list sample * nat) :=
  let samples_needed := Z.of_nat (fragm sp) - Z.of_nat (input_pos_ sp) in
  if samples_needed =? 0 then None
  else
    let '(data, input', r) := sf_readf_float (input_channels sp) input samples_needed in
    Some ({| fragm := fragm sp; ninp := ninp sp; nout := nout sp;
             convproc := convproc sp;
             buffer_ := list_inserts (input_pos_ sp * input_channels sp) data (buffer_ sp);
             input_pos_ := (input_pos_ sp + r)%nat;
             output_pos_ := -1;
             max_out_value_observed_ := max_out_value_observed_ sp |},
          input', r).

(** [WriteProcessed(out, sample_count)]: [None] where the assertion fails;
    else the processor and the output afterwards. *)
Definition WriteProcessed (process : Convproc -> Convproc) (output : list sample)
    (sample_count : nat) (sp : t) : option (t * list sample) :=
  let sp := if output_pos_ sp <? 0 then Process process sp else sp in
  if Z.of_nat sample_count <=? Z.of_nat (fragm sp) - output_pos_ sp then
    let output' :=
      sf_writef_float (output_channels sp) output
        (drop (Z.to_nat (output_pos_ sp) * output_channels sp) (buffer_ sp)) sample_count in
    let output_pos := output_pos_ sp + Z.of_nat sample_count in
    Some ({| fragm := fragm sp; ninp := ninp sp; nout := nout sp;
             convproc := convproc sp; buffer_ := buffer_ sp;
             input_pos_ := if output_pos =? Z.of_nat (fragm sp) then 0%nat else input_pos_ sp;
             output_pos_ := output_pos;
             max_out_value_observed_ := max_out_value_observed_ sp |},
          output')
  else None.

End SoundProcessor.

(** ** Sample files *)

Module Fixture.
Import Posix Sndfile SndFileFilter FlacMetadata.

(** STREAMINFO of a stream of 441000 frames at 44.1 kHz, two channels,
    16 bits, with an MD5 signature. *)
Definition streaminfo : block :=
  mkBlock x00 x00 x00 x22
    ([x10; x00; x10; x00; x00; x00; x0e; x00; x2f; x1c;
      x0a; xc4; x42; xf0; x00; x06; xba; xa8]
     ++ [xd4; x1d; x8c; xd9; x8f; x00; xb2; x04; xe9; x80; x09; x98; xec; xf8; x42; x7e]).

(** A SEEKTABLE with one seek point, not last and last. *)
Definition seekpoint : list byte := repeat x00 16 ++ [x10; x00].
Definition seektable : block := mkBlock x03 x00 x00 x12 seekpoint.
Definition seektable_last : block := mkBlock x83 x00 x00 x12 seekpoint.

(** An empty VORBIS_COMMENT, flagged as last. *)
Definition vorbis_comment_last : block := mkBlock x84 x00 x00 x08 (repeat x00 8).

(** The start of the first audio frame. *)
Definition frames_ : list byte := [xff; xf8; xc9; x18].

(** STREAMINFO, SEEKTABLE, VORBIS_COMMENT (last). *)
Definition flac_comment_last : list byte :=
  fLaC ++ encode_chain [streaminfo; seektable; vorbis_comment_last] ++ frames_.

(** STREAMINFO, SEEKTABLE (last). *)
Definition flac_seektable_last : list byte :=
  fLaC ++ encode_chain [streaminfo; seektable_last] ++ frames_.

Definition flac_info : SF_INFO :=
  mkSF_INFO 441000 44100 2 (Z.lor SF_FORMAT_FLAC SF_FORMAT_PCM_16) 1 1.

Definition attrs_of (content : list byte) : stat :=
  {| st_mode := 33188; st_size := Z.of_nat (length content); st_mtime := 0 |}.

(** The filter that the constructor makes for a FLAC file. *)
Definition filter_over (content : list byte) : SndFileFilter.t :=
  fst (new_SndFileFilter (FdFile content (attrs_of content))
         {| sf_get_string := fun _ => None |} flac_info (attrs_of [])).

(** An encoder whose own header is the marker and a STREAMINFO block, and
    which has not written it yet. *)
Definition flac_encoder : encoder :=
  {| enc_strings := ∅;
     enc_header := fun _ => fLaC ++ encode_block (mkBlock x80 x00 x00 x22 (repeat x00 34));
     enc_header_written := false |}.

End Fixture.

(** ** A sample fragment *)

Module FixtureSamples.
Import SoundProcessor.

Definition s0_25 : sample := S754_finite false 8388608 (-25).
Definition s0_125 : sample := S754_finite false 8388608 (-26).
Definition s0_5 : sample := S754_finite false 8388608 (-24).
Definition s0_75 : sample := S754_finite false 12582912 (-24).

(** Two channels and fragments of two frames; the buffer holds one frame
    read, 0.25 left and 0.5 right, and older samples behind it. *)
Definition one_frame_read : SoundProcessor.t :=
  {| fragm := 2; ninp := 2; nout := 2;
     convproc := {| inpdata := [[s0_75; s0_75]; [s0_75; s0_75]];
                    outdata := [[s0_75; s0_75]; [s0_75; s0_75]] |};
     buffer_ := [s0_25; s0_5; s0_125; s0_125];
     input_pos_ := 1; output_pos_ := -1;
     max_out_value_observed_ := IEEE.fzero |}.

(** The same processor before anything was read. *)
Definition nothing_read : SoundProcessor.t :=
  {| fragm := 2; ninp := 2; nout := 2;
     convproc := convproc one_frame_read;
     buffer_ := [s0_125; s0_125; s0_125; s0_125];
     input_pos_ := 0; output_pos_ := -1;
     max_out_value_observed_ := IEEE.fzero |}.

(** A convolver that exchanges the channels. *)
Definition swap_channels (c : Convproc) : Convproc :=
  {| inpdata := inpdata c;
     outdata := [nth 1 (inpdata c) []; nth 0 (inpdata c) []] |}.

(** A convolver that hands its input on. *)
Definition hand_on (c : Convproc) : Convproc :=
  {| inpdata := inpdata c; outdata := inpdata c |}.

End FixtureSamples.

(** * Properties *)

(** ** Machine integers *)

Section CIntFacts.
Import CInt.

Lemma to_int32_range (z : Z) : - 2 ^ 31 <= to_int32 z < 2 ^ 31.
Proof.
  unfold to_int32.
  pose proof (Z.mod_pos_bound (z + 2 ^ 31) (2 ^ 32) ltac:(lia)). lia.
Qed.

Lemma to_int32_small (z : Z) : - 2 ^ 31 <= z < 2 ^ 31 -> to_int32 z = z.
Proof.
  intros Hz. unfold to_int32. rewrite Z.mod_small by lia. lia.
Qed.

Lemma to_int32_congruent (z : Z) : to_int32 z mod 2 ^ 32 = z mod 2 ^ 32.
Proof.
  unfold to_int32.
  rewrite Zminus_mod_idemp_l.
  f_equal. lia.
Qed.

Lemma to_uint64_congruent (z : Z) : to_uint64 z mod 2 ^ 32 = z mod 2 ^ 32.
Proof.
  unfold to_uint64.
  apply Z.mod_mod_divide. exists (2 ^ 32). reflexivity.
Qed.

(** The [int] that [(int) (offset + size)] yields equals a [long] exactly
    when that [long] is an [int] and congruent to the sum modulo [2^32]. *)
Lemma int_cast_eq_iff (sum s : Z) :
  to_int32 (to_uint64 sum) = s <->
  (- 2 ^ 31 <= s < 2 ^ 31 /\ sum mod 2 ^ 32 = s mod 2 ^ 32).
Proof.
  split.
  - intros <-. split; [apply to_int32_range|].
    now rewrite to_int32_congruent, to_uint64_congruent.
  - intros [Hs Hc].
    rewrite <- (to_int32_small s Hs). unfold to_int32.
    f_equal.
    rewrite <- (Zplus_mod_idemp_l (to_uint64 sum)), to_uint64_congruent, Hc.
    now rewrite Zplus_mod_idemp_l.
Qed.

End CIntFacts.

(** ** The output format *)

Section OutputFormat.
Import Sndfile SndFileFilter.

(** What the two formats the constructor makes up consist of. *)
Lemma flac_pcm16_parts :
  Z.land (Z.lor SF_FORMAT_FLAC SF_FORMAT_PCM_16) SF_FORMAT_TYPEMASK = SF_FORMAT_FLAC /\
  Z.land (Z.lor SF_FORMAT_FLAC SF_FORMAT_PCM_16) SF_FORMAT_SUBMASK = SF_FORMAT_PCM_16.
Proof. split; reflexivity. Qed.

Lemma wav_float_cpu_parts :
  let fmt := Z.lor (Z.lor SF_FORMAT_WAV SF_FORMAT_FLOAT) SF_ENDIAN_CPU in
  Z.land fmt SF_FORMAT_TYPEMASK = SF_FORMAT_WAV /\
  Z.land fmt SF_FORMAT_SUBMASK = SF_FORMAT_FLOAT /\
  Z.land fmt SF_FORMAT_ENDMASK = SF_ENDIAN_CPU.
Proof. repeat split; reflexivity. Qed.

(** Everything but [format] and [seekable] is the input's. *)
Lemma output_info_other_fields (in_info : SF_INFO) :
  frames (output_info in_info) = frames in_info /\
  samplerate (output_info in_info) = samplerate in_info /\
  channels (output_info in_info) = channels in_info /\
  sections (output_info in_info) = sections in_info /\
  seekable (output_info in_info) = 0.
Proof. repeat split; reflexivity. Qed.



End OutputFormat.

(** ** PassThroughFilter *)

Section PassThrough.
Import Posix PassThroughFilter.

(** A failing [pread] comes back as the negated [errno]. *)
Lemma passthrough_read_failure (e size offset : Z) :
  fst (Read (mk (FdFailing e)) size offset) = - e.
Proof. reflexivity. Qed.

(** A [pread] that succeeds comes back as the number of bytes read, and
    these are the bytes of the file from [offset] on. *)
Lemma passthrough_read_success (content : list byte) (attrs : stat) (size offset : Z) :
  0 <= offset -> 0 <= size < 2 ^ 31 ->
  Read (mk (FdFile content attrs)) size offset =
    (Z.of_nat (length (take (Z.to_nat size) (drop (Z.to_nat offset) content))),
     take (Z.to_nat size) (drop (Z.to_nat offset) content)).
Proof.
  intros Ho Hs. unfold Read, pread. cbn [filedes_].
  destruct (Z.ltb_spec offset 0) as [|_]; [lia|].
  cbn [pread_ret pread_data].
  set (data := take (Z.to_nat size) (drop (Z.to_nat offset) content)).
  assert (Hlen : (length data <= Z.to_nat size)%nat) by (subst data; rewrite length_take; lia).
  rewrite to_int32_small by lia.
  destruct (Z.eqb_spec (Z.of_nat (length data)) (-1)) as [|_]; [lia|reflexivity].
Qed.

(** A failing [close] comes back as the negated [errno]. *)
Lemma passthrough_close_failure (e : Z) : Close (mk (FdFailing e)) = - e.
Proof. reflexivity. Qed.

Lemma passthrough_close_success (content : list byte) (attrs : stat) :
  Close (mk (FdFile content attrs)) = 0.
Proof. reflexivity. Qed.

(** C9.  [Stat] hands on what [fstat] returns: for a failing [fstat] that is
    [-1] whatever [errno] is, where [Read] and [Close] return the negated
    [errno].  With [errno = EIO] the value is [-1] and not [-EIO]. *)
Theorem passthrough_stat_failure_is_minus_one :
  (forall (e : Z) (st : stat), fst (Stat (mk (FdFailing e)) st) = -1) /\
  (forall st : stat, fst (Stat (mk (FdFailing EIO)) st) <> - EIO) /\
  fst (Read (mk (FdFailing EIO)) 4096 0) = - EIO /\
  Close (mk (FdFailing EIO)) = - EIO.
Proof. repeat split; intros; discriminate. Qed.

End PassThrough.

(** ** SndFileFilter::Read *)

Section EndOfFileSkip.
Import Posix CInt SndFileFilter.

(** With the error flag set [Read] returns [-1]. *)
Lemma read_error (h : t) (size offset : Z) :
  error_ h = true -> Read h size offset = ReadReturns (-1) [].
Proof. intros He. unfold Read. now rewrite He. Qed.

(** When [Read] takes the shortcut and when it does not: the comparison is
    made on the sum cast to [int]. *)
Lemma read_cases (h : t) (size offset : Z) :
  error_ h = false ->
  ConversionBuffer.FileSize (output_buffer_ h) < offset ->
  (to_int32 (to_uint64 (offset + size)) = st_size (file_stat_ h) ->
     Read h size offset = ReadReturns (to_int32 size) (repeat x00 (Z.to_nat size))) /\
  (to_int32 (to_uint64 (offset + size)) <> st_size (file_stat_ h) ->
     Read h size offset = ReadFromBuffer size offset).
Proof.
  intros He Hlt. unfold Read. rewrite He.
  destruct (Z.ltb_spec (ConversionBuffer.FileSize (output_buffer_ h)) offset) as [_|]; [|lia].
  cbn [andb].
  split; intros Hc.
  - now rewrite Hc, Z.eqb_refl.
  - now destruct (Z.eqb_spec (to_int32 (to_uint64 (offset + size))) (st_size (file_stat_ h))).
Qed.

(** The shortcut as the specification words it holds for files whose
    reported size is an [int]. *)
Lemma read_end_skip_below_2GiB (h : t) (size offset : Z) :
  error_ h = false ->
  ConversionBuffer.FileSize (output_buffer_ h) < offset ->
  0 <= size < 2 ^ 31 ->
  offset + size = st_size (file_stat_ h) ->
  st_size (file_stat_ h) < 2 ^ 31 ->
  Read h size offset = ReadReturns size (repeat x00 (Z.to_nat size)).
Proof.
  intros He Hlt Hs Hsum Hsmall.
  pose proof (proj1 (read_cases h size offset He Hlt)) as Hskip.
  rewrite (to_int32_small size) in Hskip by lia.
  apply Hskip. apply int_cast_eq_iff.
  unfold ConversionBuffer.FileSize in Hlt. split; [lia | now rewrite Hsum].
Qed.

(** C3.  A sound file reported as [2^31] bytes long, nothing converted yet,
    and a read of the last 4096 bytes: [offset] is beyond what the buffer
    holds and [offset + size] is the reported size, but the sum cast to [int]
    is [-2^31], the comparison fails and the read goes to the conversion
    buffer instead of returning zeroes. *)
Theorem read_end_skip_missed_at_2GiB
    (content : list byte) (snd_in : decoder) (in_info : Sndfile.SF_INFO)
    (uninitialised : stat) :
  let h := fst (new_SndFileFilter (FdFile content {| st_mode := 0; st_size := 2 ^ 31; st_mtime := 0 |})
                  snd_in in_info uninitialised) in
  error_ h = false /\
  ConversionBuffer.FileSize (output_buffer_ h) < 2 ^ 31 - 4096 /\
  (2 ^ 31 - 4096) + 4096 = st_size (file_stat_ h) /\
  to_int32 (to_uint64 ((2 ^ 31 - 4096) + 4096)) = - 2 ^ 31 /\
  Read h 4096 (2 ^ 31 - 4096) = ReadFromBuffer 4096 (2 ^ 31 - 4096).
Proof. repeat split. Qed.

(** C10.  A sound file reported as 5,000,000,000 bytes long, nothing
    converted yet, and a read of the last 4096 bytes: [offset] is beyond what
    the buffer holds and [offset + size] is the reported size itself, so
    congruent to it modulo [2^32]; but the sum cast to [int] is 705,032,704,
    the comparison with the reported size fails and the read goes to the
    conversion buffer instead of returning zeroes. *)
Theorem read_end_skip_missed_at_5GB
    (content : list byte) (snd_in : decoder) (in_info : Sndfile.SF_INFO)
    (uninitialised : stat) :
  let h := fst (new_SndFileFilter
                  (FdFile content {| st_mode := 0; st_size := 5000000000; st_mtime := 0 |})
                  snd_in in_info uninitialised) in
  error_ h = false /\
  ConversionBuffer.FileSize (output_buffer_ h) < 5000000000 - 4096 /\
  (5000000000 - 4096) + 4096 = st_size (file_stat_ h) /\
  ((5000000000 - 4096) + 4096) mod 2 ^ 32 = st_size (file_stat_ h) mod 2 ^ 32 /\
  to_int32 (to_uint64 ((5000000000 - 4096) + 4096)) = 705032704 /\
  Read h 4096 (5000000000 - 4096) = ReadFromBuffer 4096 (5000000000 - 4096).
Proof. repeat split. Qed.

(** What the comparison on the sum cast to [int] comes to: the shortcut is
    taken exactly when the reported size is an [int] and [offset + size] is
    congruent to it modulo [2^32]; the buffer then receives [size] zero bytes
    and the value returned is [size] cast to [int]. *)
Lemma read_end_skip_on_cast (h : t) (size offset : Z) :
  error_ h = false ->
  ConversionBuffer.FileSize (output_buffer_ h) < offset ->
  (- 2 ^ 31 <= st_size (file_stat_ h) < 2 ^ 31 /\
   (offset + size) mod 2 ^ 32 = st_size (file_stat_ h) mod 2 ^ 32 ->
     Read h size offset = ReadReturns (to_int32 size) (repeat x00 (Z.to_nat size))) /\
  (~ (- 2 ^ 31 <= st_size (file_stat_ h) < 2 ^ 31 /\
      (offset + size) mod 2 ^ 32 = st_size (file_stat_ h) mod 2 ^ 32) ->
     Read h size offset = ReadFromBuffer size offset).
Proof.
  intros He Hlt.
  destruct (read_cases h size offset He Hlt) as [Hskip Hpass].
  split; intros Hc.
  - apply Hskip. now apply int_cast_eq_iff.
  - apply Hpass. intros Heq. apply Hc. now apply int_cast_eq_iff.
Qed.

End EndOfFileSkip.

(** ** SoundProcessor::Process *)

Section Peak.
Import SoundProcessor.

(** The peak is compared with the sample as it is: [out_abs] is the sample,
    not its absolute value. *)
Lemma join_sample_peak (channels ch j : nat) (source buffer : list sample) (max_out : sample) :
  snd (join_sample channels ch source (buffer, max_out) j) =
    if SFltb max_out (nth j source IEEE.fzero) then nth j source IEEE.fzero else max_out.
Proof. reflexivity. Qed.

(** C6.  Two channels, a fragment of two frames, the peak reset to 0.  The
    convolver delivers 0.25 and -0.5 on the left and -0.75 and 0.125 on the
    right.  After [Process] the buffer holds these four samples and the peak
    is 0.25: below the absolute value 0.75 of a sample that was produced. *)
Theorem process_peak_misses_negative_samples :
  let s0_25 := S754_finite false 8388608 (-25) in
  let s0_125 := S754_finite false 8388608 (-26) in
  let m0_5 := S754_finite true 8388608 (-24) in
  let m0_75 := S754_finite true 12582912 (-24) in
  let sp := {| fragm := 2; ninp := 2; nout := 2;
               convproc := {| inpdata := [[IEEE.fzero; IEEE.fzero]; [IEEE.fzero; IEEE.fzero]];
                              outdata := [[IEEE.fzero; IEEE.fzero]; [IEEE.fzero; IEEE.fzero]] |};
               buffer_ := [s0_25; s0_25; s0_125; s0_125];
               input_pos_ := 2; output_pos_ := -1;
               max_out_value_observed_ := IEEE.fzero |} in
  let process := fun c : Convproc =>
                   {| inpdata := inpdata c; outdata := [[s0_25; m0_5]; [m0_75; s0_125]] |} in
  let sp' := Process process sp in
  buffer_ sp' = [s0_25; m0_75; m0_5; s0_125] /\
  output_pos_ sp' = 0 /\
  max_out_value_observed_ sp' = s0_25 /\
  SFltb (max_out_value_observed_ sp') (SFabs m0_75) = true /\
  SFleb (SFabs m0_75) (max_out_value_observed_ sp') = false.
Proof. repeat split. Qed.

End Peak.

(** ** SndFileFilter::Stat *)

Section SizeEstimate.
Import Posix CInt SndFileFilter.

(** The constructor reports the size of the original file and puts the
    threshold at 0.4 times that size, the product cut to an integer. *)
Lemma new_SndFileFilter_initial_size (content : list byte) (attrs : stat) (snd_in : decoder)
    (in_info : Sndfile.SF_INFO) (uninitialised : stat) :
  let h := fst (new_SndFileFilter (FdFile content attrs) snd_in in_info uninitialised) in
  file_stat_ h = attrs /\
  start_estimating_size_ h = estimating_threshold attrs /\
  input_frames_left_ h = total_frames_ h.
Proof. repeat split. Qed.

(** Where [fstat] fails the constructor goes on: [file_stat_] is what the
    memory held, and the threshold is worked out from it. *)
Lemma new_SndFileFilter_fstat_fails (errno : Z) (snd_in : decoder)
    (in_info : Sndfile.SF_INFO) (uninitialised : stat) :
  let h := fst (new_SndFileFilter (FdFailing errno) snd_in in_info uninitialised) in
  file_stat_ h = uninitialised /\
  start_estimating_size_ h = estimating_threshold uninitialised /\
  error_ h = false.
Proof. repeat split. Qed.

Example estimating_threshold_1000 :
  estimating_threshold {| st_mode := 0; st_size := 1000; st_mtime := 0 |} = 400.
Proof. reflexivity. Qed.

Example estimating_threshold_1024 :
  estimating_threshold {| st_mode := 0; st_size := 1024; st_mtime := 0 |} = 409.
Proof. reflexivity. Qed.

(** A quarter of 1000 frames done and 5000 bytes written: 4 * 5000 + 16384. *)
Example estimated_size_quarter : estimated_size 1000 250 5000 = 36384.
Proof. reflexivity. Qed.

(** A third of 10 frames done: the quotient is rounded to a [float], and so
    is the product. *)
Example estimated_size_third : estimated_size 10 3 3000 = 10000 + 16384.
Proof. reflexivity. Qed.

(** [AddMoreSoundData] leaves [file_stat_] and the threshold alone. *)
Lemma AddMoreSoundData_file_stat (r : Z) (encoded : list byte) (h : t) :
  file_stat_ (fst (AddMoreSoundData r encoded h)) = file_stat_ h.
Proof.
  unfold AddMoreSoundData. now destruct (input_frames_left_ h =? 0).
Qed.

(** What one call of [Stat] does to the reported size. *)
Lemma Stat_size (h : t) :
  st_size (file_stat_ (fst (Stat h))) =
    if estimating h
    then Z.max (st_size (file_stat_ h))
               (estimated_size (total_frames_ h)
                  (to_int32 (total_frames_ h - input_frames_left_ h))
                  (ConversionBuffer.FileSize (output_buffer_ h)))
    else st_size (file_stat_ h).
Proof.
  unfold Stat, estimating. cbn [fst].
  destruct (ConversionBuffer.FileSize (output_buffer_ h) >? start_estimating_size_ h);
    [|reflexivity].
  destruct (to_int32 (total_frames_ h - input_frames_left_ h) >? 0); [|reflexivity].
  cbn [andb].
  destruct (Z.gtb_spec
              (estimated_size (total_frames_ h)
                 (to_int32 (total_frames_ h - input_frames_left_ h))
                 (ConversionBuffer.FileSize (output_buffer_ h)))
              (st_size (file_stat_ h))); cbn [set_file_stat file_stat_ set_st_size st_size]; lia.
Qed.

Lemma Stat_monotone (h : t) :
  st_size (file_stat_ h) <= st_size (file_stat_ (fst (Stat h))).
Proof. rewrite Stat_size. destruct (estimating h); lia. Qed.

Lemma Stat_result (h : t) : snd (Stat h) = (0, file_stat_ (fst (Stat h))).
Proof. reflexivity. Qed.

Lemma reported_sizes_sorted (events : list event) :
  forall h : t, Sorted Z.le (st_size (file_stat_ h) :: reported_sizes h events).
Proof.
  induction events as [|ev events IH]; intros h.
  - repeat constructor.
  - destruct ev as [|size offset|r encoded]; cbn [reported_sizes].
    + pose proof (Stat_result h) as Hr. destruct (Stat h) as [h' [ret st]] eqn:HS.
      cbn [snd fst] in Hr. injection Hr as -> ->.
      pose proof (Stat_monotone h) as Hm. rewrite HS in Hm. cbn [fst] in Hm.
      constructor; [apply IH | constructor; exact Hm].
    + apply IH.
    + rewrite <- (AddMoreSoundData_file_stat r encoded h). apply IH.
Qed.

(** A file of 1000 bytes with 1000 frames.  The first [Stat] reports the
    original size.  After 250 frames and 500 bytes the estimate is
    4 * 500 + 16384; after 500 frames and 510 bytes the estimate,
    2 * 510 + 16384, is smaller and the size reported stays. *)
Example reported_sizes_sample (content : list byte) (snd_in : decoder) (uninitialised : stat) :
  reported_sizes
    (fst (new_SndFileFilter (FdFile content {| st_mode := 33188; st_size := 1000; st_mtime := 0 |})
            snd_in (Sndfile.mkSF_INFO 1000 44100 2 Sndfile.SF_FORMAT_WAV 1 1) uninitialised))
    [CallStat;
     CallAddMoreSoundData 250 (repeat x00 500); CallStat;
     CallAddMoreSoundData 250 (repeat x00 10); CallStat]
  = [1000; 18384; 18384].
Proof. reflexivity. Qed.

(** The threshold for every original size below 2^12: two fifths of the
    size, rounded down. *)
Lemma estimating_threshold_checked :
  forallb (fun s => estimating_threshold {| st_mode := 0; st_size := s; st_mtime := 0 |}
                    =? 2 * s / 5)
          (map Z.of_nat (seq 0 4096)) = true.
Proof. vm_compute. reflexivity. Qed.

Lemma estimating_threshold_two_fifths (attrs : stat) :
  0 <= st_size attrs < 2 ^ 12 -> estimating_threshold attrs = 2 * st_size attrs / 5.
Proof.
  intros Hs.
  pose proof (proj1 (forallb_forall _ _) estimating_threshold_checked (st_size attrs)) as Hc.
  cbv beta in Hc. apply Z.eqb_eq. apply Hc.
  apply in_map_iff. exists (Z.to_nat (st_size attrs)). split; [lia|].
  apply in_seq. lia.
Qed.

(** The estimate where the frames done divide the total, for totals up to
    8 * 8 frames and fewer than 64 bytes written: the quotient times the
    bytes, plus 16384. *)
Lemma estimated_size_checked :
  forallb (fun k => forallb (fun d => forallb (fun fs =>
             estimated_size (Z.of_nat k * Z.of_nat d) (Z.of_nat d) (Z.of_nat fs)
             =? Z.of_nat k * Z.of_nat fs + 16384)
           (seq 0 64)) (seq 1 8)) (seq 1 8) = true.
Proof. vm_compute. reflexivity. Qed.

Lemma estimated_size_multiple (k d fs : Z) :
  0 < k <= 8 -> 0 < d <= 8 -> 0 <= fs < 64 ->
  estimated_size (k * d) d fs = k * fs + 16384.
Proof.
  intros Hk Hd Hfs.
  pose proof (proj1 (forallb_forall _ _) estimated_size_checked (Z.to_nat k)) as H1.
  cbv beta in H1.
  pose proof (proj1 (forallb_forall _ _) (H1 ltac:(apply in_seq; lia)) (Z.to_nat d)) as H2.
  cbv beta in H2.
  pose proof (proj1 (forallb_forall _ _) (H2 ltac:(apply in_seq; lia)) (Z.to_nat fs)) as H3.
  cbv beta in H3.
  specialize (H3 ltac:(apply in_seq; lia)).
  rewrite !Z2Nat.id in H3 by lia. now apply Z.eqb_eq.
Qed.

(** While no [Stat] finds the two tests passed, every [Stat] reports the
    size the filter has. *)
Lemma reported_sizes_not_yet (events : list event) :
  forall h : t,
    not_yet_estimating h events = true ->
    Forall (eq (st_size (file_stat_ h))) (reported_sizes h events).
Proof.
  induction events as [|ev events IH]; intros h Hn.
  - constructor.
  - destruct ev as [|size offset|r encoded]; cbn [reported_sizes not_yet_estimating] in *.
    + apply andb_prop in Hn. destruct Hn as [Hg Hn].
      apply negb_true_iff in Hg.
      pose proof (Stat_size h) as Hs. rewrite Hg in Hs.
      pose proof (Stat_result h) as Hr. destruct (Stat h) as [h' [ret st]] eqn:HS.
      cbn [snd fst] in *. injection Hr as -> ->.
      constructor; [now rewrite Hs|].
      rewrite <- Hs. now apply IH.
    + now apply IH.
    + rewrite <- (AddMoreSoundData_file_stat r encoded h). now apply IH.
Qed.

(** C2.  The filter that the constructor leaves for a file whose [fstat]
    gives [attrs] reports [attrs], and its threshold is the [double] product
    of [0.4] and the original size, cut to an integer: below 2^12, two fifths
    of the size rounded down.  [Stat] returns 0 and reports [file_stat_].  A
    call leaves the filter as it is unless the buffer has grown beyond the
    threshold and frames have been done; then the reported size becomes the
    larger of the size reported so far and the estimate
    [(1.0 * total / done) * FileSize() + 16384], the quotient taken in
    [double] and rounded to [float], the product taken in [float] and cut to
    an integer; where done divides total (small numbers) this is the
    quotient times [FileSize()] plus 16384.  As long as no [Stat] finds both
    tests passed, every [Stat] reports the original size; and whatever the
    calls on the filter, the sizes reported one after the other never
    decrease, starting from the original size. *)
Theorem stat_size_estimate (content : list byte) (attrs uninitialised : stat)
    (snd_in : decoder) (in_info : Sndfile.SF_INFO) (h : t) (events : list event) :
  let h0 := fst (new_SndFileFilter (FdFile content attrs) snd_in in_info uninitialised) in
  let file_size := ConversionBuffer.FileSize (output_buffer_ h) in
  let frames_done := to_int32 (total_frames_ h - input_frames_left_ h) in
  let estimated_end :=
    IEEE.float_of_double
      (IEEE.ddiv (IEEE.dmul (IEEE.double_of_Z 1) (IEEE.double_of_Z (total_frames_ h)))
                 (IEEE.double_of_Z frames_done)) in
  let estimate :=
    to_int64 (IEEE.to_off_t (IEEE.fmul estimated_end (IEEE.float_of_Z file_size)) + 16384) in
  (file_stat_ h0 = attrs /\
   ConversionBuffer.FileSize (output_buffer_ h0) = 0 /\
   start_estimating_size_ h0 =
     IEEE.to_off_t (IEEE.dmul IEEE.d0_4 (IEEE.double_of_Z (st_size attrs))) /\
   (0 <= st_size attrs < 2 ^ 12 -> start_estimating_size_ h0 = 2 * st_size attrs / 5)) /\
  (snd (Stat h) = (0, file_stat_ (fst (Stat h))) /\
   (file_size <= start_estimating_size_ h \/ frames_done <= 0 -> fst (Stat h) = h) /\
   (file_size > start_estimating_size_ h -> frames_done > 0 ->
      st_size (file_stat_ (fst (Stat h))) = Z.max (st_size (file_stat_ h)) estimate) /\
   (forall k d fs : Z, 0 < k <= 8 -> 0 < d <= 8 -> 0 <= fs < 64 ->
      estimated_size (k * d) d fs = k * fs + 16384)) /\
  (not_yet_estimating h0 events = true ->
     Forall (eq (st_size attrs)) (reported_sizes h0 events)) /\
  Sorted Z.le (st_size attrs :: reported_sizes h0 events) /\
  Sorted Z.le (st_size (file_stat_ h) :: reported_sizes h events).
Proof.
  intros h0 file_size frames_done estimated_end estimate.
  split; [|split; [|split; [|split]]].
  - repeat split. intros Hs. now apply estimating_threshold_two_fifths.
  - split; [apply Stat_result|]. split; [|split].
    + intros Hno. unfold Stat. cbn [fst]. fold file_size frames_done.
      destruct (Z.gtb_spec file_size (start_estimating_size_ h)); [|reflexivity].
      destruct (Z.gtb_spec frames_done 0); [lia | reflexivity].
    + intros Hf Hd. rewrite Stat_size. unfold estimating. fold file_size frames_done.
      destruct (Z.gtb_spec file_size (start_estimating_size_ h)); [|lia].
      destruct (Z.gtb_spec frames_done 0); [|lia].
      reflexivity.
    + apply estimated_size_multiple.
  - apply (reported_sizes_not_yet events h0).
  - apply (reported_sizes_sorted events h0).
  - apply reported_sizes_sorted.
Qed.

(** A file of 1000 bytes with 1000 frames: the threshold is 400.  With 250
    frames done and 400 bytes in the buffer [Stat] still reports 1000; ten
    bytes more and it reports 4 * 410 + 16384. *)
Lemma stat_size_estimate_witness :
  let attrs := {| st_mode := 33188; st_size := 1000; st_mtime := 0 |} in
  let h0 := fst (new_SndFileFilter (FdFile [] attrs) (mkDecoder (fun _ => None))
                   (Sndfile.mkSF_INFO 1000 44100 2 Sndfile.SF_FORMAT_WAV 1 1) attrs) in
  let h1 := fst (AddMoreSoundData 250 (repeat x00 400) h0) in
  let h2 := fst (AddMoreSoundData 0 (repeat x00 10) h1) in
  start_estimating_size_ h0 = 400 /\
  fst (Stat h1) = h1 /\
  st_size (file_stat_ (fst (Stat h2))) = 18024 /\
  Forall (eq 1000)
    (reported_sizes h0 [CallStat; CallAddMoreSoundData 250 (repeat x00 400); CallStat]).
Proof.
  intros attrs h0 h1 h2.
  pose proof (stat_size_estimate [] attrs attrs (mkDecoder (fun _ => None))
                (Sndfile.mkSF_INFO 1000 44100 2 Sndfile.SF_FORMAT_WAV 1 1)) as Hthm.
  split; [|split; [|split]].
  - destruct (Hthm h0 []) as [[_ [_ [_ Ht]]] _].
    exact (Ht ltac:(vm_compute; split; [discriminate | reflexivity])).
  - destruct (Hthm h1 []) as [_ [[_ [Hno _]] _]].
    apply Hno. left. vm_compute. discriminate.
  - destruct (Hthm h2 []) as [_ [[_ [_ [Hyes _]]] _]].
    exact (Hyes ltac:(vm_compute; reflexivity) ltac:(vm_compute; reflexivity)).
  - destruct (Hthm h0 [CallStat; CallAddMoreSoundData 250 (repeat x00 400); CallStat])
      as [_ [_ [Hn _]]].
    exact (Hn eq_refl).
Defined.

End SizeEstimate.

(** ** The map of open files *)

Section OpenFiles.
Import FilterInterface.

Lemma count_open_insert (fs_path p : string) (ptr : filter_ptr)
    (live : gmap filter_ptr string) :
  live !! ptr = None ->
  count_open fs_path (<[ptr := p]> live) =
    (count_open fs_path live + if bool_decide (p = fs_path) then 1 else 0)%nat.
Proof.
  intros Hfresh. unfold count_open.
  case_bool_decide as Hp.
  - rewrite map_filter_insert_True by exact Hp.
    rewrite map_size_insert_None; [lia|].
    apply map_lookup_filter_None. left. exact Hfresh.
  - rewrite map_filter_insert_not' ; [lia | exact Hp |].
    intros y Hy. congruence.
Qed.

Lemma count_open_delete (fs_path p : string) (ptr : filter_ptr)
    (live : gmap filter_ptr string) :
  live !! ptr = Some p ->
  (count_open fs_path (delete ptr live) + if bool_decide (p = fs_path) then 1 else 0)%nat =
    count_open fs_path live.
Proof.
  intros Hlive. unfold count_open.
  rewrite map_filter_delete.
  case_bool_decide as Hp.
  - assert (Hin : filter (fun kv : filter_ptr * string => kv.2 = fs_path) live !! ptr = Some p)
      by (apply map_lookup_filter_Some; split; [exact Hlive | exact Hp]).
    rewrite map_size_delete_Some by (rewrite Hin; eauto).
    assert (size (filter (fun kv : filter_ptr * string => kv.2 = fs_path) live) <> 0%nat)
      by (apply (map_size_ne_0_lookup_2 _ ptr); rewrite Hin; eauto).
    lia.
  - rewrite map_size_delete_None; [lia|].
    apply map_lookup_filter_None. right. intros y Hy. cbn. congruence.
Qed.

Lemma step_entries_open (s : state) (live : gmap filter_ptr string) (c : call) :
  matching live [c] -> entries_open s live -> entries_open (step s c) (track live c).
Proof.
  intros [Hc _] Hinv fs_path ptr.
  destruct c as [p f|p f]; cbn [step track create_filter close_filter fst open_files_].
  - destruct (decide (p = fs_path)) as [->|Hne].
    + rewrite lookup_insert_eq. intros [= <-]. apply lookup_insert_eq.
    + rewrite lookup_insert_ne by exact Hne. intros Hl.
      pose proof (Hinv _ _ Hl) as Hlive.
      rewrite lookup_insert_ne; [exact Hlive | congruence].
  - intros Hl.
    assert (Hold : open_files_ s !! fs_path = Some ptr /\
                   ~ (fs_path = p /\ ptr = f)).
    { destruct (open_files_ s !! p) as [found|] eqn:Hfound.
      - destruct (decide (found = f)) as [->|Hne].
        + apply lookup_delete_Some in Hl as [Hp Hl]. split; [exact Hl|].
          intros [-> _]. congruence.
        + split; [exact Hl|]. intros [-> ->]. congruence.
      - split; [exact Hl|]. intros [-> ->]. congruence. }
    destruct Hold as [Hold Hnot].
    pose proof (Hinv _ _ Hold) as Hlive.
    rewrite lookup_delete_ne; [exact Hlive|].
    intros <-. apply Hnot. split; [congruence | reflexivity].
Qed.

Lemma run_entries_open (fs_path : string) (calls : list call) :
  forall (s : state) (live : gmap filter_ptr string),
    matching live calls -> entries_open s live ->
    entries_open (run calls s) (fold_left track calls live) /\
    (count_open fs_path (fold_left track calls live) + closes fs_path calls)%nat =
      (count_open fs_path live + opens fs_path calls)%nat.
Proof.
  induction calls as [|c calls IH]; intros s live Hm Hinv.
  - split; [exact Hinv | reflexivity].
  - destruct Hm as [Hc Hm]. cbn [run fold_left].
    assert (Hstep : entries_open (step s c) (track live c))
      by (apply step_entries_open; [split; [exact Hc | exact I] | exact Hinv]).
    destruct (IH (step s c) (track live c) Hm Hstep) as [Hinv' Hcount].
    split; [exact Hinv'|].
    unfold opens, closes in *. cbn [List.filter].
    destruct c as [p f|p f]; cbn [is_open_of is_close_of track] in *.
    + rewrite (count_open_insert fs_path p f live Hc) in Hcount.
      destruct (bool_decide (p = fs_path)); cbn [length]; lia.
    + pose proof (count_open_delete fs_path p f live Hc) as Hd.
      destruct (bool_decide (p = fs_path)); cbn [length]; lia.
Qed.

Lemma count_open_pos (fs_path : string) (ptr : filter_ptr)
    (live : gmap filter_ptr string) :
  live !! ptr = Some fs_path -> (0 < count_open fs_path live)%nat.
Proof.
  intros Hlive. unfold count_open.
  assert (size (filter (fun kv : filter_ptr * string => kv.2 = fs_path) live) <> 0%nat);
    [|lia].
  apply (map_size_ne_0_lookup_2 _ ptr).
  exists fs_path. apply map_lookup_filter_Some. split; [exact Hlive | reflexivity].
Qed.

(** [create_filter] enters the new filter for the path, in the place of
    whatever was entered. *)
Lemma create_filter_entry (fs_path : string) (ptr : filter_ptr) (s : state) :
  open_files_ (fst (create_filter fs_path ptr s)) !! fs_path = Some ptr.
Proof. apply lookup_insert_eq. Qed.

(** [close_filter] takes the entry of the path out when it is the filter
    that is closed, and leaves it otherwise. *)
Lemma close_filter_entry (fs_path : string) (ptr : filter_ptr) (close_result : Z) (s : state) :
  open_files_ (fst (close_filter fs_path ptr close_result s)) !! fs_path =
    if decide (open_files_ s !! fs_path = Some ptr) then None
    else open_files_ s !! fs_path.
Proof.
  unfold close_filter. cbn [fst open_files_].
  destruct (open_files_ s !! fs_path) as [found|] eqn:Hf.
  - destruct (decide (found = ptr)) as [->|Hne].
    + rewrite decide_True by reflexivity. apply lookup_delete_eq.
    + rewrite decide_False by congruence. exact Hf.
  - rewrite decide_False by discriminate. exact Hf.
Qed.

(** C1, as stated, does not hold: the map keeps no count.  A path opened
    twice and the second filter closed: one filter is still open, opens
    minus closes is 1, and the map has no entry for the path. *)
Lemma open_files_entry_not_counted :
  ~ (forall (calls : list call) (fs_path : string),
       matching ∅ calls ->
       (is_Some (open_files_ (run calls initial) !! fs_path) <->
        (closes fs_path calls < opens fs_path calls)%nat)).
Proof.
  intros Hclaim.
  destruct (Hclaim [CreateFilter "a" 1%N; CreateFilter "a" 2%N; CloseFilter "a" 2%N] "a")
    as [_ Hback].
  - repeat split.
  - destruct Hback as [ptr Hfilter]; [cbv; lia|].
    vm_compute in Hfilter. discriminate Hfilter.
Qed.

(** [close_filter] takes the entry of the path out of the map when it is
    the filter that is closed; otherwise the whole map is as it was. *)
Lemma close_filter_map (fs_path : string) (ptr : filter_ptr) (close_result : Z) (s : state) :
  close_filter fs_path ptr close_result s =
    ({| open_files_ := if decide (open_files_ s !! fs_path = Some ptr)
                       then delete fs_path (open_files_ s)
                       else open_files_ s |},
     close_result).
Proof.
  unfold close_filter.
  destruct (open_files_ s !! fs_path) as [found|] eqn:Hf.
  - destruct (decide (found = ptr)) as [->|Hne].
    + now rewrite decide_True by reflexivity.
    + now rewrite decide_False by congruence.
  - now rewrite decide_False by discriminate.
Qed.

(** C1, amended.  After as many closes as opens of a path the map has no
    entry for it.  While the map has an entry for a path, the filter entered
    is open and was opened for that path, so opens exceed closes; the
    converse does not hold, the entry being that of the filter opened last
    and going with it.  [create_filter] returns the new filter and enters it
    for the path, the rest of the map being as it was; [close_filter] returns
    what [Close] returned and takes the entry of the path out when it holds
    the filter that is closed, and otherwise leaves the whole map as it
    was. *)
Theorem open_files_after_matching_calls (calls : list call) (fs_path : string) :
  matching ∅ calls ->
  (opens fs_path calls = closes fs_path calls ->
     open_files_ (run calls initial) !! fs_path = None) /\
  (forall ptr : filter_ptr,
     open_files_ (run calls initial) !! fs_path = Some ptr ->
     open_filters calls !! ptr = Some fs_path /\
     (closes fs_path calls < opens fs_path calls)%nat) /\
  (forall (s : state) (ptr : filter_ptr),
     create_filter fs_path ptr s =
       ({| open_files_ := <[fs_path := ptr]> (open_files_ s) |}, ptr)) /\
  (forall (s : state) (ptr : filter_ptr) (close_result : Z),
     close_filter fs_path ptr close_result s =
       ({| open_files_ := if decide (open_files_ s !! fs_path = Some ptr)
                          then delete fs_path (open_files_ s)
                          else open_files_ s |},
        close_result)).
Proof.
  intros Hm.
  assert (Hinit : entries_open initial ∅) by (intros p f Hl; cbn in Hl; now rewrite lookup_empty in Hl).
  destruct (run_entries_open fs_path calls initial ∅ Hm Hinit) as [Hinv Hcount].
  assert (Hzero : count_open fs_path ∅ = 0%nat) by reflexivity.
  assert (Hentry : forall ptr : filter_ptr,
             open_files_ (run calls initial) !! fs_path = Some ptr ->
             open_filters calls !! ptr = Some fs_path /\
             (closes fs_path calls < opens fs_path calls)%nat).
  { intros ptr Hl. pose proof (Hinv _ _ Hl) as Hlive.
    split; [exact Hlive|].
    pose proof (count_open_pos _ _ _ Hlive). lia. }
  split; [|split; [exact Hentry|split]].
  - intros Heq. destruct (open_files_ (run calls initial) !! fs_path) as [ptr|] eqn:Hl;
      [|reflexivity].
    destruct (Hentry ptr eq_refl) as [_ Hlt]. lia.
  - intros s ptr. reflexivity.
  - intros s ptr close_result. apply close_filter_map.
Qed.

(** A path opened twice and both filters closed, the first one first. *)
Lemma open_files_after_matching_calls_witness :
  open_files_
    (run [CreateFilter "a" 1%N; CreateFilter "a" 2%N; CloseFilter "a" 1%N; CloseFilter "a" 2%N]
         initial) !! "a" = None.
Proof.
  apply (proj1 (open_files_after_matching_calls
                  [CreateFilter "a" 1%N; CreateFilter "a" 2%N;
                   CloseFilter "a" 1%N; CloseFilter "a" 2%N] "a"
                  ltac:(vm_compute; repeat split))).
  reflexivity.
Defined.

End OpenFiles.

(** ** The FLAC header *)

Section FlacHeader.
Import Posix SndFileFilter FlacMetadata.

Lemma Append_nil (out : ConversionBuffer.t) : ConversionBuffer.Append [] out = out.
Proof. destruct out. unfold ConversionBuffer.Append. cbn. now rewrite app_nil_r. Qed.

Lemma Append_Append (a b : list byte) (out : ConversionBuffer.t) :
  ConversionBuffer.Append b (ConversionBuffer.Append a out) = ConversionBuffer.Append (a ++ b) out.
Proof. unfold ConversionBuffer.Append. cbn. now rewrite app_assoc. Qed.

Lemma take_take_drop {A} (n k : nat) (l : list A) :
  take n l ++ take k (drop n l) = take (n + k) l.
Proof.
  revert l. induction n as [|n IH]; intros l; [reflexivity|].
  destruct l as [|x l]; cbn; [now rewrite take_nil | now rewrite IH].
Qed.

Lemma CopyBytes_loop_file (content : list byte) (attrs : stat) (rounds : nat) :
  forall (pos len : Z) (out : ConversionBuffer.t),
    0 <= pos -> 0 <= len -> (Z.to_nat len <= rounds)%nat ->
    CopyBytes_loop rounds (FdFile content attrs) pos out len =
      ConversionBuffer.Append (take (Z.to_nat len) (drop (Z.to_nat pos) content)) out.
Proof.
  induction rounds as [|rounds IH]; intros pos len out Hpos Hlen Hr.
  - replace (Z.to_nat len) with 0%nat by lia. cbn. now rewrite Append_nil.
  - cbn [CopyBytes_loop].
    destruct (Z.gtb_spec len 0) as [Hpos_len|Hz].
    2:{ replace (Z.to_nat len) with 0%nat by lia. cbn. now rewrite Append_nil. }
    unfold pread. destruct (Z.ltb_spec pos 0) as [|_]; [lia|].
    cbn [pread_ret pread_data].
    set (D := drop (Z.to_nat pos) content).
    set (m := Z.to_nat (Z.min 256 len)).
    set (chunk := take m D).
    assert (Hm : (0 < m <= Z.to_nat len)%nat) by (subst m; lia).
    assert (Hchunk : length chunk = Nat.min m (length D)) by (subst chunk; apply length_take).
    destruct (Z.leb_spec (Z.of_nat (length chunk)) 0) as [Hempty|Hsome].
    + assert (HD : D = []) by (apply length_zero_iff_nil; lia).
      rewrite HD, take_nil. now rewrite Append_nil.
    + rewrite IH by lia.
      rewrite Append_Append. f_equal.
      replace (Z.to_nat (pos + Z.of_nat (length chunk)))
        with (Z.to_nat pos + length chunk)%nat by lia.
      rewrite <- drop_drop. fold D.
      replace (Z.to_nat (len - Z.of_nat (length chunk)))
        with (Z.to_nat len - length chunk)%nat by lia.
      assert (Hc : chunk = take (length chunk) D).
      { subst chunk. rewrite length_take.
        destruct (Nat.le_ge_cases m (length D)) as [Hle|Hge].
        - now rewrite Nat.min_l by exact Hle.
        - rewrite Nat.min_r by exact Hge. now rewrite !take_ge by lia. }
      rewrite Hc at 1. rewrite take_take_drop. f_equal. lia.
Qed.

Lemma CopyBytes_file (content : list byte) (attrs : stat) (pos len : Z)
    (out : ConversionBuffer.t) :
  0 <= pos -> 0 <= len ->
  CopyBytes (FdFile content attrs) pos out len =
    ConversionBuffer.Append (take (Z.to_nat len) (drop (Z.to_nat pos) content)) out.
Proof. intros. unfold CopyBytes. now apply CopyBytes_loop_file. Qed.

Lemma iter_Append_zero (n : nat) (out : ConversionBuffer.t) :
  Nat.iter n (ConversionBuffer.Append [x00]) out = ConversionBuffer.Append (repeat x00 n) out.
Proof.
  induction n as [|n IH]; [now rewrite Append_nil|].
  cbn [Nat.iter nat_rect]. change (nat_rect _ out (fun _ => ConversionBuffer.Append [x00]) n)
    with (Nat.iter n (ConversionBuffer.Append [x00]) out).
  rewrite IH, Append_Append. f_equal. now rewrite <- repeat_cons.
Qed.

Lemma file_slice (pre data rest : list byte) (n pos : nat) :
  pos = length pre -> (n <= length data)%nat ->
  take n (drop pos (pre ++ data ++ rest)) = take n data.
Proof.
  intros -> Hn. rewrite drop_app_length. now apply take_app_le.
Qed.

Lemma pread_header (pre tl : list byte) (b : block) (attrs : stat) :
  pread_data (pread (FdFile (pre ++ encode_block b ++ tl) attrs) 4 (Z.of_nat (length pre)))
  = block_header b.
Proof.
  unfold pread. destruct (Z.ltb_spec (Z.of_nat (length pre)) 0) as [|_]; [lia|].
  cbn [pread_data]. rewrite Nat2Z.id.
  unfold encode_block. rewrite <- app_assoc.
  rewrite (file_slice pre (block_header b) (payload b ++ tl) (Z.to_nat 4) (length pre) eq_refl).
  - reflexivity.
  - cbn. lia.
Qed.

Lemma block_len_nonneg (b : block) : 0 <= block_len b.
Proof.
  unfold block_len, header_byte_len, b2z.
  rewrite !Z.shiftl_mul_pow2 by lia. lia.
Qed.

Lemma CopyBytes_payload (pre tl : list byte) (b : block) (attrs : stat) (len : Z)
    (out : ConversionBuffer.t) :
  0 <= len <= Z.of_nat (length (payload b)) ->
  CopyBytes (FdFile (pre ++ encode_block b ++ tl) attrs) (Z.of_nat (length pre) + 4) out len
  = ConversionBuffer.Append (take (Z.to_nat len) (payload b)) out.
Proof.
  intros Hlen. rewrite CopyBytes_file by lia. f_equal.
  unfold encode_block. rewrite <- app_assoc, (app_assoc pre).
  apply file_slice; [|lia].
  rewrite length_app. cbn. lia.
Qed.

Lemma loop_step (rounds : nat) (pre tl : list byte) (b : block) (attrs : stat)
    (nfp : bool) (out : ConversionBuffer.t) :
  well_formed_block b ->
  CopyFlacHeader_loop (S rounds) (FdFile (pre ++ encode_block b ++ tl) attrs)
    (Z.of_nat (length pre)) nfp out =
  let out' := ConversionBuffer.Append (encode_chain (splice_block b)) out in
  let nfp' := negb (is_streaminfo b) && is_seektable b && block_is_last b in
  if block_is_last b then (out', nfp')
  else CopyFlacHeader_loop rounds (FdFile (pre ++ encode_block b ++ tl) attrs)
         (Z.of_nat (length (pre ++ encode_block b))) nfp' out'.
Proof.
  intros Hwf. cbn [CopyFlacHeader_loop]. rewrite pread_header.
  unfold block_header. cbv beta iota zeta.
  fold (block_is_last b) (block_type b) (block_len b).
  unfold well_formed_block in Hwf.
  assert (Hpos : Z.of_nat (length pre) + 4 + block_len b
                 = Z.of_nat (length (pre ++ encode_block b))).
  { unfold encode_block, block_header. rewrite !length_app. cbn [length]. lia. }
  rewrite Hpos.
  unfold splice_block, is_streaminfo, is_seektable.
  destruct (Z.eqb_spec (block_type b) FLAC__METADATA_TYPE_STREAMINFO) as [Ht|Ht];
    [destruct (Z.eqb_spec (block_len b) 34) as [Hl|Hl]|]; cbn [andb negb].
  - rewrite CopyBytes_payload by lia. rewrite iter_Append_zero, !Append_Append.
    replace (ConversionBuffer.Append (encode_chain [redact_md5 b]) out)
      with (ConversionBuffer.Append (([hdr0 b; hdr1 b; hdr2 b; hdr3 b]
              ++ take (Z.to_nat (block_len b - 16)) (payload b)) ++ repeat x00 16) out).
    + reflexivity.
    + f_equal. unfold encode_chain, encode_block, redact_md5, block_header. cbn.
      rewrite app_nil_r. rewrite Hl. reflexivity.
  - replace (block_type b =? FLAC__METADATA_TYPE_SEEKTABLE) with false
      by (rewrite Ht; reflexivity).
    rewrite CopyBytes_payload by (pose proof (block_len_nonneg b); lia).
    rewrite Append_Append.
    replace (ConversionBuffer.Append (encode_chain [b]) out)
      with (ConversionBuffer.Append ([hdr0 b; hdr1 b; hdr2 b; hdr3 b]
              ++ take (Z.to_nat (block_len b)) (payload b)) out).
    + reflexivity.
    + f_equal. unfold encode_chain, encode_block, block_header. cbn.
      rewrite app_nil_r. rewrite <- Hwf, Nat2Z.id, firstn_all. reflexivity.
  - destruct (Z.eqb_spec (block_type b) FLAC__METADATA_TYPE_SEEKTABLE) as [Hs|Hs].
    + cbn [encode_chain flat_map]. rewrite Append_nil. cbn [andb].
      destruct (block_is_last b); reflexivity.
    + rewrite CopyBytes_payload by (pose proof (block_len_nonneg b); lia).
      rewrite Append_Append.
      replace (ConversionBuffer.Append (encode_chain [b]) out)
        with (ConversionBuffer.Append ([hdr0 b; hdr1 b; hdr2 b; hdr3 b]
                ++ take (Z.to_nat (block_len b)) (payload b)) out).
      * reflexivity.
      * f_equal. unfold encode_chain, encode_block, block_header. cbn.
        rewrite app_nil_r. rewrite <- Hwf, Nat2Z.id, firstn_all. reflexivity.
Qed.


Lemma encode_chain_app (xs ys : list block) :
  encode_chain (xs ++ ys) = encode_chain xs ++ encode_chain ys.
Proof. apply flat_map_app. Qed.

Lemma encode_chain_cons (b : block) (bs : list block) :
  encode_chain (b :: bs) = encode_block b ++ encode_chain bs.
Proof. reflexivity. Qed.

Lemma last_is_seektable_cons (b b' : block) (bs : list block) :
  last_is_seektable (b :: b' :: bs) = last_is_seektable (b' :: bs).
Proof. reflexivity. Qed.

Lemma loop_chain (attrs : stat) (rest : list byte) (bs : list block) :
  forall (rounds : nat) (pre : list byte) (nfp : bool) (out : ConversionBuffer.t),
    well_formed_chain bs -> (length bs <= rounds)%nat ->
    CopyFlacHeader_loop rounds (FdFile (pre ++ encode_chain bs ++ rest) attrs)
      (Z.of_nat (length pre)) nfp out =
    (ConversionBuffer.Append (encode_chain (flat_map splice_block bs)) out,
     last_is_seektable bs).
Proof.
  induction bs as [|b bs IH]; intros rounds pre nfp out Hwf Hr; [destruct Hwf|].
  destruct rounds as [|rounds]; [cbn in Hr; lia|].
  destruct Hwf as [Hb Hrest].
  rewrite encode_chain_cons, <- app_assoc.
  rewrite loop_step by exact Hb. cbv zeta.
  destruct bs as [|b' bs].
  - rewrite Hrest. cbn [flat_map]. rewrite app_nil_r.
    unfold last_is_seektable. cbn [last]. now rewrite andb_true_r.
  - destruct Hrest as [Hnl Hwf']. rewrite Hnl.
    rewrite (app_assoc pre).
    rewrite IH by (try exact Hwf'; cbn [length] in *; lia).
    rewrite Append_Append, <- encode_chain_app.
    rewrite last_is_seektable_cons. reflexivity.
Qed.

Lemma length_encode_chain (bs : list block) : (length bs <= length (encode_chain bs))%nat.
Proof.
  induction bs as [|b bs IH]; [reflexivity|].
  rewrite encode_chain_cons, length_app. unfold encode_block, block_header.
  rewrite length_app. cbn [length]. lia.
Qed.

(** The header copy does to the bytes of a FLAC file what [splice_chain]
    does to its chain of metadata blocks. *)
Lemma CopyFlacHeader_splices (h : t) (attrs : stat) (bs : list block) (audio : list byte)
    (out : ConversionBuffer.t) :
  filedes_ h = FdFile (fLaC ++ encode_chain bs ++ audio) attrs ->
  well_formed_chain bs ->
  CopyFlacHeader h out = ConversionBuffer.Append (fLaC ++ encode_chain (splice_chain bs)) out.
Proof.
  intros Hfd Hwf. unfold CopyFlacHeader. rewrite Hfd.
  change 4 with (Z.of_nat (length fLaC)).
  rewrite loop_chain.
  - unfold splice_chain. rewrite encode_chain_app.
    destruct (last_is_seektable bs).
    + rewrite !Append_Append; f_equal; rewrite <- ?app_assoc; reflexivity.
    + rewrite Append_Append. now rewrite app_nil_r.
  - exact Hwf.
  - cbn [header_rounds]. rewrite !length_app.
    pose proof (length_encode_chain bs). lia.
Qed.


(** *** The chain of the output *)

Lemma redact_md5_well_formed (b : block) :
  well_formed_block b -> is_streaminfo b = true -> well_formed_block (redact_md5 b).
Proof.
  unfold well_formed_block, is_streaminfo. intros Hwf Hsi.
  apply andb_true_iff in Hsi as [_ Hl%Z.eqb_eq].
  unfold redact_md5, block_len in *. cbn [payload hdr1 hdr2 hdr3].
  rewrite length_app, length_take, repeat_length. lia.
Qed.

Lemma well_formed_chain_cons (b : block) (bs : list block) :
  well_formed_block b -> block_is_last b = false -> well_formed_chain bs ->
  well_formed_chain (b :: bs).
Proof.
  intros Hb Hl Hbs. destruct bs as [|b' bs]; [destruct Hbs|].
  split; [exact Hb | split; [exact Hl | exact Hbs]].
Qed.

Lemma splice_chain_cons (b b' : block) (bs : list block) :
  splice_chain (b :: b' :: bs) = splice_block b ++ splice_chain (b' :: bs).
Proof.
  unfold splice_chain. rewrite last_is_seektable_cons.
  cbn [flat_map]. now rewrite <- !app_assoc.
Qed.

Lemma splice_chain_well_formed (bs : list block) :
  well_formed_chain bs -> well_formed_chain (splice_chain bs).
Proof.
  induction bs as [|b bs IH]; [intros []|].
  intros [Hb Hrest]. destruct bs as [|b' bs].
  - unfold splice_chain, last_is_seektable, splice_block. cbn [last flat_map].
    destruct (is_streaminfo b) eqn:Hsi; cbn [negb andb app].
    + split; [now apply redact_md5_well_formed | exact Hrest].
    + destruct (is_seektable b); cbn [app].
      * split; reflexivity.
      * split; [exact Hb | exact Hrest].
  - destruct Hrest as [Hnl Hwf]. rewrite splice_chain_cons.
    specialize (IH Hwf). unfold splice_block.
    destruct (is_streaminfo b) eqn:Hsi; [|destruct (is_seektable b)]; cbn [app].
    + apply well_formed_chain_cons; [now apply redact_md5_well_formed | exact Hnl | exact IH].
    + exact IH.
    + now apply well_formed_chain_cons.
Qed.

Lemma splice_block_no_seektable (b : block) :
  Forall (fun b' => block_type b' <> FLAC__METADATA_TYPE_SEEKTABLE) (splice_block b).
Proof.
  unfold splice_block, is_streaminfo, is_seektable.
  destruct (Z.eqb_spec (block_type b) FLAC__METADATA_TYPE_STREAMINFO) as [Ht|Ht];
    [destruct (Z.eqb_spec (block_len b) 34)|]; cbn [andb].
  - repeat constructor. change (block_type (redact_md5 b)) with (block_type b).
    rewrite Ht. discriminate.
  - destruct (Z.eqb_spec (block_type b) FLAC__METADATA_TYPE_SEEKTABLE) as [Hs|Hs];
      repeat constructor; exact Hs.
  - destruct (Z.eqb_spec (block_type b) FLAC__METADATA_TYPE_SEEKTABLE) as [Hs|Hs];
      repeat constructor; exact Hs.
Qed.

Lemma splice_chain_no_seektable (bs : list block) :
  Forall (fun b => block_type b <> FLAC__METADATA_TYPE_SEEKTABLE) (splice_chain bs).
Proof.
  unfold splice_chain. apply Forall_app. split.
  - induction bs as [|b bs IH]; [constructor|].
    cbn [flat_map]. apply Forall_app. split; [apply splice_block_no_seektable | exact IH].
  - destruct (last_is_seektable bs); repeat constructor. discriminate.
Qed.

Lemma well_formed_chain_one_last (bs : list block) :
  well_formed_chain bs -> length (List.filter block_is_last bs) = 1%nat.
Proof.
  induction bs as [|b bs IH]; [intros []|].
  intros [_ Hrest]. cbn [List.filter]. destruct bs as [|b' bs].
  - now rewrite Hrest.
  - destruct Hrest as [-> Hwf]. now apply IH.
Qed.

Lemma well_formed_chain_last (bs : list block) :
  well_formed_chain bs -> exists b, last bs = Some b /\ block_is_last b = true.
Proof.
  induction bs as [|b bs IH]; [intros []|].
  intros [_ Hrest]. destruct bs as [|b' bs].
  - exists b. split; [reflexivity | exact Hrest].
  - destruct Hrest as [_ Hwf]. destruct (IH Hwf) as [l [Hl Hf]].
    exists l. split; [|exact Hf]. cbn [last] in *. exact Hl.
Qed.

Lemma parse_encode_chain (tl : list byte) (bs : list block) :
  forall rounds : nat,
    well_formed_chain bs -> (length bs <= rounds)%nat ->
    parse_chain rounds (encode_chain bs ++ tl) = Some (bs, tl).
Proof.
  induction bs as [|b bs IH]; intros rounds Hwf Hr; [destruct Hwf|].
  destruct rounds as [|rounds]; [cbn in Hr; lia|].
  destruct Hwf as [Hb Hrest]. unfold well_formed_block in Hb.
  destruct b as [h0 h1 h2 h3 pl]. unfold block_len in Hb. cbn [hdr1 hdr2 hdr3 payload] in Hb.
  rewrite encode_chain_cons. unfold encode_block, block_header.
  cbn [hdr0 hdr1 hdr2 hdr3 payload app parse_chain].
  rewrite <- Hb, Nat2Z.id, <- app_assoc.
  destruct (Nat.ltb_spec (length (pl ++ encode_chain bs ++ tl)) (length pl)) as [Hlt|_];
    [rewrite length_app in Hlt; lia|].
  rewrite take_app_length, drop_app_length.
  unfold block_is_last in Hrest. cbn [hdr0] in Hrest.
  destruct bs as [|b' bs].
  - now rewrite Hrest.
  - destruct Hrest as [-> Hwf]. rewrite IH by (try exact Hwf; cbn [length] in *; lia).
    reflexivity.
Qed.


(** *** The rounds allowed to the loops are enough *)





(** *** The header copy only appends *)

Ltac append_norm := rewrite ?Append_Append, <- ?app_assoc; reflexivity.

Lemma CopyBytes_loop_appends (fd : filedes) (rounds : nat) :
  forall pos len : Z,
    exists bytes : list byte,
      forall out : ConversionBuffer.t,
        CopyBytes_loop rounds fd pos out len = ConversionBuffer.Append bytes out.
Proof.
  induction rounds as [|rounds IH]; intros pos len.
  - exists []. intros out. now rewrite Append_nil.
  - cbn [CopyBytes_loop]. destruct (len >? 0).
    + destruct (pread_ret (pread fd (Z.min 256 len) pos) <=? 0).
      * exists []. intros out. now rewrite Append_nil.
      * destruct (IH (pos + pread_ret (pread fd (Z.min 256 len) pos))
                     (len - pread_ret (pread fd (Z.min 256 len) pos))) as [bytes Hb].
        exists (pread_data (pread fd (Z.min 256 len) pos) ++ bytes).
        intros out. rewrite Hb. append_norm.
    + exists []. intros out. now rewrite Append_nil.
Qed.

Lemma CopyFlacHeader_loop_appends (fd : filedes) (rounds : nat) :
  forall (pos : Z) (nfp : bool),
    exists (bytes : list byte) (nfp' : bool),
      forall out : ConversionBuffer.t,
        CopyFlacHeader_loop rounds fd pos nfp out = (ConversionBuffer.Append bytes out, nfp').
Proof.
  induction rounds as [|rounds IH]; intros pos nfp.
  - exists [], nfp. intros out. now rewrite Append_nil.
  - cbn [CopyFlacHeader_loop].
    destruct (pread_data (pread fd 4 pos)) as [|h0 [|h1 [|h2 [|h3 [|h4 more]]]]];
      try (exists [], nfp; intros out; now rewrite Append_nil).
    set (len := header_byte_len h1 h2 h3).
    destruct ((header_type h0 =? FLAC__METADATA_TYPE_STREAMINFO) && (len =? 34)).
    + destruct (CopyBytes_loop_appends fd (Z.to_nat (len - 16)) (pos + 4) (len - 16))
        as [copied Hc].
      destruct (IH (pos + 4 + len) false) as [bytes [nfp' Hb]].
      destruct (header_is_last h0).
      * exists (([h0; h1; h2; h3] ++ copied) ++ repeat x00 16), false. intros out.
        unfold CopyBytes. rewrite Hc, iter_Append_zero. append_norm.
      * exists ((([h0; h1; h2; h3] ++ copied) ++ repeat x00 16) ++ bytes), nfp'. intros out.
        unfold CopyBytes. rewrite Hc, iter_Append_zero, Hb. append_norm.
    + destruct (header_type h0 =? FLAC__METADATA_TYPE_SEEKTABLE).
      * destruct (header_is_last h0).
        -- exists [], true. intros out. now rewrite Append_nil.
        -- destruct (IH (pos + 4 + len) false) as [bytes [nfp' Hb]].
           exists bytes, nfp'. intros out. apply Hb.
      * destruct (CopyBytes_loop_appends fd (Z.to_nat len) (pos + 4) len) as [copied Hc].
        destruct (IH (pos + 4 + len) false) as [bytes [nfp' Hb]].
        destruct (header_is_last h0).
        -- exists ([h0; h1; h2; h3] ++ copied), false. intros out.
           unfold CopyBytes. rewrite Hc. append_norm.
        -- exists (([h0; h1; h2; h3] ++ copied) ++ bytes), nfp'. intros out.
           unfold CopyBytes. rewrite Hc, Hb. append_norm.
Qed.

(** The bytes that the header copy appends are those it leaves in an empty
    buffer; the flag of the buffer plays no part and is left as it is. *)
Lemma CopyFlacHeader_appends (h : t) (out : ConversionBuffer.t) :
  CopyFlacHeader h out =
    ConversionBuffer.Append (ConversionBuffer.B (CopyFlacHeader h ConversionBuffer.new_ConversionBuffer)) out.
Proof.
  assert (Hex : exists bytes, forall o, CopyFlacHeader h o = ConversionBuffer.Append bytes o).
  { unfold CopyFlacHeader.
    destruct (CopyFlacHeader_loop_appends (filedes_ h) (header_rounds (filedes_ h)) 4 false)
      as [bytes [nfp Hb]].
    destruct nfp.
    - exists ((fLaC ++ bytes) ++ [x81; x00; x00; x00]). intros o.
      rewrite Hb. append_norm.
    - exists (fLaC ++ bytes). intros o. rewrite Hb. append_norm. }
  destruct Hex as [bytes Hb]. rewrite !Hb. reflexivity.
Qed.

Lemma B_Append (bytes : list byte) (out : ConversionBuffer.t) :
  ConversionBuffer.B (ConversionBuffer.Append bytes out) = ConversionBuffer.B out ++ bytes.
Proof. reflexivity. Qed.

Lemma last_is_seektable_type (bs : list block) (b : block) :
  last bs = Some b ->
  last_is_seektable bs = (block_type b =? FLAC__METADATA_TYPE_SEEKTABLE).
Proof.
  intros Hl. unfold last_is_seektable, is_streaminfo, is_seektable. rewrite Hl.
  destruct (Z.eqb_spec (block_type b) FLAC__METADATA_TYPE_SEEKTABLE) as [Ht|Ht];
    [|apply andb_false_r].
  rewrite Ht. reflexivity.
Qed.

(** C4.  For a FLAC file with a STREAMINFO block of 34 bytes in its chain,
    the header copy puts [fLaC] first, and for STREAMINFO the four header
    bytes, the first 18 bytes of the payload and 16 zero bytes; before and
    after come the other blocks, spliced. *)
Theorem flac_streaminfo_md5_zeroed (h : t) (out : ConversionBuffer.t) (attrs : stat)
    (before after : list block) (si : block) (audio : list byte) :
  filedes_ h = FdFile (fLaC ++ encode_chain (before ++ si :: after) ++ audio) attrs ->
  well_formed_chain (before ++ si :: after) ->
  block_type si = FLAC__METADATA_TYPE_STREAMINFO ->
  block_len si = 34 ->
  ConversionBuffer.B out = [] ->
  ConversionBuffer.B (CopyFlacHeader h out) =
    fLaC ++ encode_chain (flat_map splice_block before)
         ++ (block_header si ++ take 18 (payload si) ++ repeat x00 16)
         ++ encode_chain (flat_map splice_block after)
         ++ (if last_is_seektable (before ++ si :: after)
             then encode_block padding_block else []) /\
  length (take 18 (payload si)) = 18%nat.
Proof.
  intros Hfd Hwf Ht Hl Hout.
  rewrite (CopyFlacHeader_splices h attrs _ audio out Hfd Hwf), B_Append, Hout.
  assert (Hsi : splice_block si = [redact_md5 si]).
  { unfold splice_block, is_streaminfo. now rewrite Ht, Hl. }
  assert (Hpl : length (payload si) = 34%nat).
  { assert (Hw : well_formed_block si).
    { clear - Hwf. induction before as [|b before IH].
      - destruct Hwf as [Hw _]. exact Hw.
      - destruct Hwf as [_ Hrest]. cbn [app] in Hrest.
        destruct (before ++ si :: after) eqn:Heq; [destruct before; discriminate|].
        destruct Hrest as [_ Hrest]. apply IH. exact Hrest. }
    unfold well_formed_block in Hw. lia. }
  split.
  - unfold splice_chain.
    rewrite flat_map_app. cbn [flat_map]. rewrite Hsi.
    rewrite !encode_chain_app, (encode_chain_cons (redact_md5 si) []).
    change (encode_chain []) with (@nil byte).
    unfold encode_block at 1. cbn [payload redact_md5].
    change (block_header (redact_md5 si)) with (block_header si).
    destruct (last_is_seektable (before ++ si :: after)).
    + rewrite (encode_chain_cons padding_block []).
      change (encode_chain []) with (@nil byte).
      rewrite !app_nil_r, <- !app_assoc. reflexivity.
    + change (encode_chain []) with (@nil byte).
      rewrite !app_nil_r, <- !app_assoc. reflexivity.
  - rewrite length_take. lia.
Qed.

(** STREAMINFO, SEEKTABLE and a VORBIS_COMMENT that is last. *)
Lemma flac_streaminfo_md5_zeroed_witness :
  ConversionBuffer.B
    (CopyFlacHeader (Fixture.filter_over Fixture.flac_comment_last) ConversionBuffer.new_ConversionBuffer)
  = fLaC ++ block_header Fixture.streaminfo
         ++ take 18 (payload Fixture.streaminfo) ++ repeat x00 16
         ++ encode_block Fixture.vorbis_comment_last.
Proof.
  pose proof (flac_streaminfo_md5_zeroed
                (Fixture.filter_over Fixture.flac_comment_last) ConversionBuffer.new_ConversionBuffer
                (Fixture.attrs_of Fixture.flac_comment_last)
                [] [Fixture.seektable; Fixture.vorbis_comment_last] Fixture.streaminfo
                Fixture.frames_ eq_refl ltac:(repeat split) eq_refl eq_refl eq_refl) as [H _].
  rewrite H. reflexivity.
Defined.

(** C5.  For a FLAC file the bytes that the header copy leaves are [fLaC]
    and a chain of metadata blocks that reads back as the spliced chain.  In
    it no block has type 3; it ends with the empty PADDING block flagged as
    last when the last block of the input was a SEEKTABLE; nothing is added
    otherwise; and exactly one of its blocks has the last-block flag. *)
Theorem flac_seektable_dropped (h : t) (out : ConversionBuffer.t) (attrs : stat)
    (bs : list block) (audio : list byte) :
  filedes_ h = FdFile (fLaC ++ encode_chain bs ++ audio) attrs ->
  well_formed_chain bs ->
  ConversionBuffer.B out = [] ->
  ConversionBuffer.B (CopyFlacHeader h out) = fLaC ++ encode_chain (splice_chain bs) /\
  (forall sound : list byte,
     parse_chain (length (splice_chain bs))
       (drop 4 (ConversionBuffer.B (CopyFlacHeader h out) ++ sound))
     = Some (splice_chain bs, sound)) /\
  Forall (fun b => block_type b <> FLAC__METADATA_TYPE_SEEKTABLE) (splice_chain bs) /\
  (forall b : block,
     last bs = Some b ->
     splice_chain bs =
       flat_map splice_block bs ++
       (if block_type b =? FLAC__METADATA_TYPE_SEEKTABLE then [padding_block] else [])) /\
  (block_is_last padding_block = true /\
   block_type padding_block = FLAC__METADATA_TYPE_PADDING /\
   payload padding_block = []) /\
  length (List.filter block_is_last (splice_chain bs)) = 1%nat.
Proof.
  intros Hfd Hwf Hout.
  assert (HB : ConversionBuffer.B (CopyFlacHeader h out) = fLaC ++ encode_chain (splice_chain bs))
    by (now rewrite (CopyFlacHeader_splices h attrs bs audio out Hfd Hwf), B_Append, Hout).
  pose proof (splice_chain_well_formed bs Hwf) as Hwf'.
  split; [exact HB|]. split; [|split; [|split; [|split]]].
  - intros sound. rewrite HB, <- app_assoc.
    change (drop 4 (fLaC ++ encode_chain (splice_chain bs) ++ sound))
      with (encode_chain (splice_chain bs) ++ sound).
    now apply parse_encode_chain.
  - apply splice_chain_no_seektable.
  - intros b Hl. unfold splice_chain. now rewrite (last_is_seektable_type bs b Hl).
  - repeat split.
  - now apply well_formed_chain_one_last.
Qed.

(** STREAMINFO and a SEEKTABLE that is last: the output has STREAMINFO and
    the padding block. *)
Lemma flac_seektable_dropped_witness :
  ConversionBuffer.B
    (CopyFlacHeader (Fixture.filter_over Fixture.flac_seektable_last) ConversionBuffer.new_ConversionBuffer)
  = fLaC ++ encode_chain [redact_md5 Fixture.streaminfo; padding_block].
Proof.
  exact (proj1 (flac_seektable_dropped
                  (Fixture.filter_over Fixture.flac_seektable_last) ConversionBuffer.new_ConversionBuffer
                  (Fixture.attrs_of Fixture.flac_seektable_last)
                  [Fixture.streaminfo; Fixture.seektable_last] Fixture.frames_
                  eq_refl ltac:(repeat split) eq_refl)).
Defined.

End FlacHeader.

(** ** SetOutputSoundfile *)

Section HeaderFlush.
Import Posix SndFileFilter FlacMetadata.

(** While the writes of the encoder are disabled, the flush of its header
    leaves the buffer as it is; the encoder has written its header. *)
Lemma sf_update_header_now_disabled (snd_out : encoder) (out : ConversionBuffer.t) :
  ConversionBuffer.sndfile_writes_enabled out = false ->
  sf_update_header_now snd_out out = (header_written snd_out, out).
Proof.
  intros Hd. unfold sf_update_header_now, ConversionBuffer.SndfileWriteCallback.
  now rewrite Hd.
Qed.

(** C8, as stated, does not hold: were the writes enabled before the
    encoder's header is flushed, a FLAC encoder, whose own header is not
    empty, would leave it in the buffer after the spliced one, and the first
    sound written would come after it.  The code flushes first: the buffer
    ends with the spliced header, the encoder has written its header, and
    the first sound written follows the spliced header. *)
Lemma set_output_soundfile_not_enable_then_flush :
  let spliced := fLaC ++ encode_chain [redact_md5 Fixture.streaminfo; padding_block] in
  let own := enc_header Fixture.flac_encoder (enc_strings Fixture.flac_encoder) in
  let code := SetOutputSoundfile (Fixture.filter_over Fixture.flac_seektable_last)
                ConversionBuffer.new_ConversionBuffer (Some Fixture.flac_encoder) in
  let stated := SetOutputSoundfile_enable_then_flush
                  (Fixture.filter_over Fixture.flac_seektable_last)
                  ConversionBuffer.new_ConversionBuffer Fixture.flac_encoder in
  let first_write := fun (r : t * ConversionBuffer.t) (audio : list byte) =>
    match snd_out_ (fst r) with
    | Some e => ConversionBuffer.B
                  (ConversionBuffer.SndfileWriteCallback (snd (encoder_writes audio e)) (snd r))
    | None => ConversionBuffer.B (snd r)
    end in
  own <> [] /\
  enc_header_written Fixture.flac_encoder = false /\
  ConversionBuffer.B (snd code) = spliced /\
  ConversionBuffer.B (snd stated) = spliced ++ own /\
  snd_out_ (fst code) = Some (header_written Fixture.flac_encoder) /\
  first_write code [x01; x02] = spliced ++ [x01; x02] /\
  first_write stated [x01; x02] = spliced ++ own ++ [x01; x02] /\
  snd code <> snd stated.
Proof.
  cbv zeta.
  split; [discriminate|].
  repeat (split; [reflexivity|]).
  intros Heq. apply (f_equal (fun b => length (ConversionBuffer.B b))) in Heq.
  vm_compute in Heq. discriminate Heq.
Qed.

(** C8, amended.  On the FLAC path the spliced header is copied with the
    writes of the encoder disabled, and they are still disabled when the
    encoder's header is flushed: whatever the encoder hands over is dropped,
    and the encoder has written its header.  Then the writes are enabled and
    [HeaderFinished] is marked.  The buffer holds what it held and the
    spliced header, nothing of the encoder's, whatever the encoder's header
    is; and what the encoder kept in [snd_out_] writes next is the sound
    alone, which follows the spliced header directly. *)
Theorem flac_header_flushed_before_writes_enabled
    (h : t) (out : ConversionBuffer.t) (snd_out : encoder) :
  copy_flac_header_ h = true ->
  let header := ConversionBuffer.B (CopyFlacHeader h ConversionBuffer.new_ConversionBuffer) in
  let copied := CopyFlacHeader h (ConversionBuffer.set_sndfile_writes_enabled false out) in
  let h' := fst (SetOutputSoundfile h out (Some snd_out)) in
  let buffer := snd (SetOutputSoundfile h out (Some snd_out)) in
  ConversionBuffer.sndfile_writes_enabled copied = false /\
  sf_update_header_now snd_out copied = (header_written snd_out, copied) /\
  SetOutputSoundfile h out (Some snd_out) =
    (set_snd_out (Some (header_written snd_out)) (error_ h) h,
     ConversionBuffer.HeaderFinished (ConversionBuffer.set_sndfile_writes_enabled true copied)) /\
  ConversionBuffer.B buffer = ConversionBuffer.B out ++ header /\
  ConversionBuffer.sndfile_writes_enabled buffer = true /\
  ConversionBuffer.header_finished buffer =
    Some (match ConversionBuffer.header_finished out with
          | Some off => off
          | None => ConversionBuffer.FileSize buffer
          end) /\
  snd_out_ h' = Some (header_written snd_out) /\
  error_ h' = error_ h /\
  (forall (e : encoder) (audio : list byte),
     snd_out_ h' = Some e ->
     enc_header_written e = true /\
     snd (encoder_writes audio e) = audio /\
     ConversionBuffer.B
       (ConversionBuffer.SndfileWriteCallback (snd (encoder_writes audio e)) buffer)
     = ConversionBuffer.B out ++ header ++ audio).
Proof.
  intros Hflac. cbv zeta.
  assert (Hdis : ConversionBuffer.sndfile_writes_enabled
                   (CopyFlacHeader h (ConversionBuffer.set_sndfile_writes_enabled false out))
                 = false) by now rewrite CopyFlacHeader_appends.
  pose proof (sf_update_header_now_disabled snd_out _ Hdis) as Hflush.
  assert (Hcode : SetOutputSoundfile h out (Some snd_out) =
    (set_snd_out (Some (header_written snd_out)) (error_ h) h,
     ConversionBuffer.HeaderFinished
       (ConversionBuffer.set_sndfile_writes_enabled true
          (CopyFlacHeader h (ConversionBuffer.set_sndfile_writes_enabled false out))))).
  { unfold SetOutputSoundfile. rewrite Hflac. cbv beta iota zeta.
    now rewrite Hflush. }
  split; [exact Hdis|]. split; [exact Hflush|]. split; [exact Hcode|].
  rewrite Hcode. cbn [fst snd]. rewrite CopyFlacHeader_appends.
  split; [reflexivity|]. split; [reflexivity|].
  split; [cbn; now destruct (ConversionBuffer.header_finished out)|].
  split; [reflexivity|]. split; [reflexivity|].
  intros e audio [= <-].
  split; [reflexivity|]. split; [reflexivity|].
  cbn. now rewrite app_assoc.
Qed.

(** STREAMINFO and SEEKTABLE (last), and an encoder with a header of its
    own that it has not written yet. *)
Lemma flac_header_flushed_before_writes_enabled_witness :
  let h := Fixture.filter_over Fixture.flac_seektable_last in
  let r := SetOutputSoundfile h ConversionBuffer.new_ConversionBuffer
             (Some Fixture.flac_encoder) in
  ConversionBuffer.B (snd r)
  = ConversionBuffer.B ConversionBuffer.new_ConversionBuffer
    ++ ConversionBuffer.B (CopyFlacHeader h ConversionBuffer.new_ConversionBuffer) /\
  snd_out_ (fst r) = Some (header_written Fixture.flac_encoder).
Proof.
  pose proof (flac_header_flushed_before_writes_enabled
                (Fixture.filter_over Fixture.flac_seektable_last)
                ConversionBuffer.new_ConversionBuffer Fixture.flac_encoder eq_refl) as Hthm.
  cbv zeta in *.
  split; [exact (proj1 (proj2 (proj2 (proj2 Hthm))))|].
  exact (proj1 (proj2 (proj2 (proj2 (proj2 (proj2 (proj2 Hthm))))))).
Defined.

End HeaderFlush.

(** * Further properties *)

(** ** More on the header copy *)

Section HeaderCopy.
Import Posix SndFileFilter FlacMetadata.

(** [CopyBytes] copies the [len] bytes of the file from [pos] on, in rounds
    of 256 bytes, or as many as the file has: their number is the smaller of
    [len] and what lies beyond [pos]. *)
Theorem CopyBytes_copies_slice (content : list byte) (attrs : stat) (pos len : Z)
    (out : ConversionBuffer.t) :
  0 <= pos -> 0 <= len ->
  CopyBytes (FdFile content attrs) pos out len =
    ConversionBuffer.Append (take (Z.to_nat len) (drop (Z.to_nat pos) content)) out /\
  ConversionBuffer.FileSize (CopyBytes (FdFile content attrs) pos out len) =
    ConversionBuffer.FileSize out + Z.min len (Z.max 0 (Z.of_nat (length content) - pos)).
Proof.
  intros Hpos Hlen. rewrite CopyBytes_file by assumption. split; [reflexivity|].
  unfold ConversionBuffer.FileSize. rewrite B_Append, length_app, length_take, length_drop.
  lia.
Qed.

Lemma CopyBytes_copies_slice_witness :
  CopyBytes (FdFile (repeat x01 300 ++ repeat x02 300) (Fixture.attrs_of []))
    10 ConversionBuffer.new_ConversionBuffer 500
  = ConversionBuffer.Append (repeat x01 290 ++ repeat x02 210)
      ConversionBuffer.new_ConversionBuffer.
Proof.
  rewrite (proj1 (CopyBytes_copies_slice (repeat x01 300 ++ repeat x02 300)
                    (Fixture.attrs_of []) 10 500 ConversionBuffer.new_ConversionBuffer
                    ltac:(lia) ltac:(lia))).
  reflexivity.
Defined.

Lemma CopyBytes_loop_failing (e : Z) (rounds : nat) (pos len : Z) (out : ConversionBuffer.t) :
  CopyBytes_loop rounds (FdFailing e) pos out len = out.
Proof.
  destruct rounds as [|rounds]; [reflexivity|].
  cbn [CopyBytes_loop]. now destruct (len >? 0).
Qed.

(** The bytes that the header copy appends start with [fLaC], whatever the
    file holds. *)
Lemma CopyFlacHeader_marker_first (h : t) :
  exists bytes : list byte,
    forall out : ConversionBuffer.t,
      CopyFlacHeader h out = ConversionBuffer.Append (fLaC ++ bytes) out.
Proof.
  unfold CopyFlacHeader.
  destruct (CopyFlacHeader_loop_appends (filedes_ h) (header_rounds (filedes_ h)) 4 false)
    as [bytes [nfp Hb]].
  destruct nfp.
  - exists (bytes ++ [x81; x00; x00; x00]). intros o.
    rewrite Hb, ?Append_Append, <- ?app_assoc. reflexivity.
  - exists bytes. intros o. rewrite Hb, ?Append_Append, <- ?app_assoc. reflexivity.
Qed.

(** Whatever the file holds, the header copy only appends: what the buffer
    held stays in front, the flag and the header mark of the buffer stay as
    they are, and the bytes added start with [fLaC]. *)
Theorem CopyFlacHeader_only_appends (h : t) (out : ConversionBuffer.t) :
  ConversionBuffer.B (CopyFlacHeader h out) =
    ConversionBuffer.B out
    ++ ConversionBuffer.B (CopyFlacHeader h ConversionBuffer.new_ConversionBuffer) /\
  take 4 (ConversionBuffer.B (CopyFlacHeader h ConversionBuffer.new_ConversionBuffer)) = fLaC /\
  ConversionBuffer.sndfile_writes_enabled (CopyFlacHeader h out) =
    ConversionBuffer.sndfile_writes_enabled out /\
  ConversionBuffer.header_finished (CopyFlacHeader h out) =
    ConversionBuffer.header_finished out.
Proof.
  destruct (CopyFlacHeader_marker_first h) as [bytes Hb].
  rewrite !Hb. repeat split.
Qed.

(** A descriptor on which reads fail, or a file too short to hold a block
    header after the marker: the header copy gives [fLaC] and nothing else. *)
Theorem CopyFlacHeader_without_blocks (h : t) (out : ConversionBuffer.t) :
  (exists e, filedes_ h = FdFailing e) \/
  (exists content attrs, filedes_ h = FdFile content attrs /\ (length content < 8)%nat) ->
  CopyFlacHeader h out = ConversionBuffer.Append fLaC out.
Proof.
  intros [[e He]|[content [attrs [Hc Hlen]]]]; unfold CopyFlacHeader.
  - rewrite He. reflexivity.
  - rewrite Hc. cbn [header_rounds].
    destruct (length content) as [|n] eqn:Hn; [reflexivity|].
    cbn [CopyFlacHeader_loop]. unfold pread. cbn [Z.ltb Z.compare pread_data].
    pose proof (length_drop content (Z.to_nat 4)) as Hd.
    pose proof (length_take (drop (Z.to_nat 4) content) (Z.to_nat 4)) as Ht.
    destruct (take (Z.to_nat 4) (drop (Z.to_nat 4) content))
      as [|h0 [|h1 [|h2 [|h3 [|h4 l]]]]]; try reflexivity.
    cbn [length] in Ht. lia.
Qed.

Lemma CopyFlacHeader_without_blocks_witness :
  CopyFlacHeader (Fixture.filter_over (fLaC ++ [x00; x00; x00]))
    ConversionBuffer.new_ConversionBuffer
  = ConversionBuffer.Append fLaC ConversionBuffer.new_ConversionBuffer.
Proof.
  apply CopyFlacHeader_without_blocks. right.
  exists (fLaC ++ [x00; x00; x00]), (Fixture.attrs_of (fLaC ++ [x00; x00; x00])).
  split; [reflexivity | cbn; lia].
Defined.

End HeaderCopy.

Section HeaderCopy2.
Import Posix SndFileFilter FlacMetadata.

Lemma loop_unterminated (attrs : stat) (rest : list byte) (bs : list block) :
  forall (rounds : nat) (pre : list byte) (nfp : bool) (out : ConversionBuffer.t),
    unterminated_chain bs -> (length rest < 4)%nat -> (length bs < rounds)%nat ->
    CopyFlacHeader_loop rounds (FdFile (pre ++ encode_chain bs ++ rest) attrs)
      (Z.of_nat (length pre)) nfp out =
    (ConversionBuffer.Append (encode_chain (flat_map splice_block bs)) out,
     match bs with [] => nfp | _ :: _ => false end).
Proof.
  induction bs as [|b bs IH]; intros rounds pre nfp out Hun Hrest Hr.
  - destruct rounds as [|rounds]; [cbn in Hr; lia|].
    cbn [encode_chain flat_map app CopyFlacHeader_loop]. rewrite Append_nil.
    unfold pread. destruct (Z.ltb_spec (Z.of_nat (length pre)) 0) as [|_]; [lia|].
    cbn [pread_data]. rewrite Nat2Z.id, drop_app_length.
    pose proof (length_take rest (Z.to_nat 4)) as Ht.
    destruct (take (Z.to_nat 4) rest) as [|h0 [|h1 [|h2 [|h3 [|h4 l]]]]]; try reflexivity.
    cbn [length] in Ht. lia.
  - destruct rounds as [|rounds]; [cbn in Hr; lia|].
    apply Forall_cons in Hun as [[Hb Hnl] Hun].
    rewrite encode_chain_cons, <- app_assoc.
    rewrite loop_step by exact Hb. cbv zeta. rewrite Hnl, andb_false_r.
    rewrite (app_assoc pre).
    rewrite IH by (try assumption; cbn [length] in *; lia).
    rewrite Append_Append, <- encode_chain_app. cbn [flat_map].
    now destruct bs.
Qed.

Lemma splice_block_not_last (b : block) :
  block_is_last b = false -> List.filter block_is_last (splice_block b) = [].
Proof.
  intros Hnl. unfold splice_block.
  destruct (is_streaminfo b); [|destruct (is_seektable b)]; cbn [List.filter].
  - change (block_is_last (redact_md5 b)) with (block_is_last b). now rewrite Hnl.
  - reflexivity.
  - now rewrite Hnl.
Qed.

(** A file that ends before a block flagged as last has come: the header
    copy splices the blocks there are and adds no padding block, so the
    chain it leaves has no block flagged as last. *)
Theorem CopyFlacHeader_unterminated (h : t) (out : ConversionBuffer.t) (attrs : stat)
    (bs : list block) (rest : list byte) :
  filedes_ h = FdFile (fLaC ++ encode_chain bs ++ rest) attrs ->
  unterminated_chain bs ->
  (length rest < 4)%nat ->
  CopyFlacHeader h out =
    ConversionBuffer.Append (fLaC ++ encode_chain (flat_map splice_block bs)) out /\
  List.filter block_is_last (flat_map splice_block bs) = [].
Proof.
  intros Hfd Hun Hrest. split.
  - unfold CopyFlacHeader. rewrite Hfd.
    change 4 with (Z.of_nat (length fLaC)).
    rewrite loop_unterminated; try assumption.
    + destruct bs; cbv beta iota; rewrite Append_Append; reflexivity.
    + cbn [header_rounds]. rewrite !length_app.
      pose proof (length_encode_chain bs). cbn [length fLaC]. lia.
  - clear Hfd. induction Hun as [|b bs [_ Hnl] _ IH]; [reflexivity|].
    cbn [flat_map]. rewrite List.filter_app, IH, app_nil_r.
    now apply splice_block_not_last.
Qed.

(** STREAMINFO and a SEEKTABLE not flagged as last, and the file ends. *)
Lemma CopyFlacHeader_unterminated_witness :
  CopyFlacHeader
    (Fixture.filter_over (fLaC ++ encode_chain [mkBlock x00 x00 x00 x22 (repeat x07 34);
                                                Fixture.seektable] ++ []))
    ConversionBuffer.new_ConversionBuffer
  = ConversionBuffer.Append
      (fLaC ++ encode_chain [redact_md5 (mkBlock x00 x00 x00 x22 (repeat x07 34))])
      ConversionBuffer.new_ConversionBuffer.
Proof.
  exact (proj1 (CopyFlacHeader_unterminated
                  (Fixture.filter_over
                     (fLaC ++ encode_chain [mkBlock x00 x00 x00 x22 (repeat x07 34);
                                            Fixture.seektable] ++ []))
                  ConversionBuffer.new_ConversionBuffer
                  (Fixture.attrs_of
                     (fLaC ++ encode_chain [mkBlock x00 x00 x00 x22 (repeat x07 34);
                                            Fixture.seektable] ++ []))
                  [mkBlock x00 x00 x00 x22 (repeat x07 34); Fixture.seektable] []
                  eq_refl
                  ltac:(repeat constructor)
                  ltac:(cbn; lia))).
Defined.


End HeaderCopy2.

(** ** More on the filter of a sound file *)

Section FilterLife.
Import Posix CInt SndFileFilter.

(** No encoder: the filter is flagged, the buffer is left alone, and every
    [Read] from then on returns [-1] and writes nothing, while [Stat] still
    returns 0. *)
Theorem SetOutputSoundfile_without_encoder (h : t) (out : ConversionBuffer.t)
    (size offset : Z) :
  let h' := fst (SetOutputSoundfile h out None) in
  snd (SetOutputSoundfile h out None) = out /\
  error_ h' = true /\
  snd_out_ h' = None /\
  output_buffer_ h' = output_buffer_ h /\
  Read h' size offset = ReadReturns (-1) [] /\
  fst (snd (Stat h')) = 0 /\
  error_ (fst (Stat h')) = true.
Proof.
  cbv zeta. cbn [SetOutputSoundfile fst snd].
  repeat split.
  unfold Stat. cbn [fst].
  repeat match goal with |- context [if ?c then _ else _] => destruct c end; reflexivity.
Qed.

(** [Stat] changes nothing of the filter but the size it reports. *)
Lemma Stat_frame (h : t) :
  output_buffer_ (fst (Stat h)) = output_buffer_ h /\
  total_frames_ (fst (Stat h)) = total_frames_ h /\
  input_frames_left_ (fst (Stat h)) = input_frames_left_ h /\
  start_estimating_size_ (fst (Stat h)) = start_estimating_size_ h /\
  error_ (fst (Stat h)) = error_ h /\
  st_mode (file_stat_ (fst (Stat h))) = st_mode (file_stat_ h) /\
  st_mtime (file_stat_ (fst (Stat h))) = st_mtime (file_stat_ h).
Proof.
  unfold Stat. cbn [fst].
  repeat match goal with |- context [if ?c then _ else _] => destruct c end;
    repeat split.
Qed.

(** [Stat] pulls no sound and touches nothing but the reported size, and a
    second [Stat] right after the first reports the same and changes
    nothing. *)
Theorem Stat_again (h : t) :
  output_buffer_ (fst (Stat h)) = output_buffer_ h /\
  input_frames_left_ (fst (Stat h)) = input_frames_left_ h /\
  st_mode (file_stat_ (fst (Stat h))) = st_mode (file_stat_ h) /\
  st_mtime (file_stat_ (fst (Stat h))) = st_mtime (file_stat_ h) /\
  Stat (fst (Stat h)) = (fst (Stat h), snd (Stat h)).
Proof.
  destruct (Stat_frame h) as (Hb & Ht & Hl & Hs & _ & Hm & Hmt).
  repeat (split; [assumption|]).
  pose proof (Stat_size h) as Hsize. unfold estimating in Hsize.
  unfold Stat at 1. cbn [fst snd]. rewrite Hb, Ht, Hl, Hs.
  destruct (ConversionBuffer.FileSize (output_buffer_ h) >? start_estimating_size_ h);
    [|reflexivity].
  destruct (to_int32 (total_frames_ h - input_frames_left_ h) >? 0); [|reflexivity].
  cbn [andb] in Hsize.
  destruct (Z.gtb_spec
              (estimated_size (total_frames_ h)
                 (to_int32 (total_frames_ h - input_frames_left_ h))
                 (ConversionBuffer.FileSize (output_buffer_ h)))
              (st_size (file_stat_ (fst (Stat h))))) as [Hgt|_]; [lia | reflexivity].
Qed.

(** The producer: with no frames left it returns false and changes nothing.
    With frames left and [r] frames read, the frames left go down by [r]
    and stay within bounds, what the encoder hands over is appended if the
    writes are enabled, the reported size is not touched, and the value
    returned says whether frames are still left. *)
Theorem AddMoreSoundData_accounts (r : Z) (encoded : list byte) (h : t) :
  0 <= r <= input_frames_left_ h ->
  input_frames_left_ h < 2 ^ 31 ->
  (input_frames_left_ h = 0 -> AddMoreSoundData r encoded h = (h, false)) /\
  (input_frames_left_ h <> 0 ->
     input_frames_left_ (fst (AddMoreSoundData r encoded h)) = input_frames_left_ h - r /\
     snd (AddMoreSoundData r encoded h) = negb (input_frames_left_ h - r =? 0) /\
     output_buffer_ (fst (AddMoreSoundData r encoded h)) =
       ConversionBuffer.SndfileWriteCallback encoded (output_buffer_ h) /\
     total_frames_ (fst (AddMoreSoundData r encoded h)) = total_frames_ h /\
     file_stat_ (fst (AddMoreSoundData r encoded h)) = file_stat_ h).
Proof.
  intros Hr Hmax. unfold AddMoreSoundData. split; intros Hleft.
  - now rewrite Hleft.
  - destruct (Z.eqb_spec (input_frames_left_ h) 0) as [|_]; [contradiction|].
    cbn [fst snd input_frames_left_ set_input_frames_left set_output_buffer
         output_buffer_ total_frames_ file_stat_].
    rewrite to_int32_small by lia. repeat split.
Qed.

Lemma AddMoreSoundData_accounts_witness :
  input_frames_left_
    (fst (AddMoreSoundData 250 [x01; x02]
            (fst (new_SndFileFilter (FdFile [] (Fixture.attrs_of []))
                    {| sf_get_string := fun _ => None |}
                    (Sndfile.mkSF_INFO 1000 44100 2 Sndfile.SF_FORMAT_WAV 1 1)
                    (Fixture.attrs_of [])))))
  = 1000 - 250.
Proof.
  apply (proj2 (AddMoreSoundData_accounts 250 [x01; x02]
                  (fst (new_SndFileFilter (FdFile [] (Fixture.attrs_of []))
                          {| sf_get_string := fun _ => None |}
                          (Sndfile.mkSF_INFO 1000 44100 2 Sndfile.SF_FORMAT_WAV 1 1)
                    (Fixture.attrs_of [])))
                  ltac:(vm_compute; split; discriminate) ltac:(reflexivity))).
  discriminate.
Defined.

(** A decoder that delivers no frame although frames are left, as for a file
    cut short: the producer changes nothing and returns true, call after
    call; it never reports the end of the stream. *)
Theorem AddMoreSoundData_stalls (h : t) (n : nat) :
  input_frames_left_ h <> 0 ->
  - 2 ^ 31 <= input_frames_left_ h < 2 ^ 31 ->
  AddMoreSoundData 0 [] h = (h, true) /\
  Nat.iter n (fun h' => fst (AddMoreSoundData 0 [] h')) h = h.
Proof.
  intros Hleft Hrange.
  assert (Hone : AddMoreSoundData 0 [] h = (h, true)).
  { unfold AddMoreSoundData.
    destruct (Z.eqb_spec (input_frames_left_ h) 0) as [|_]; [contradiction|].
    cbn [input_frames_left_ set_input_frames_left set_output_buffer].
    rewrite Z.sub_0_r, to_int32_small by lia.
    destruct (Z.eqb_spec (input_frames_left_ h) 0) as [|_]; [contradiction|].
    cbn [negb]. f_equal.
    unfold ConversionBuffer.SndfileWriteCallback.
    destruct (ConversionBuffer.sndfile_writes_enabled (output_buffer_ h));
      rewrite ?Append_nil; destruct h; reflexivity. }
  split; [exact Hone|].
  induction n as [|n IH]; [reflexivity|].
  now rewrite Nat.iter_succ, IH, Hone.
Qed.

Lemma AddMoreSoundData_stalls_witness :
  AddMoreSoundData 0 []
    (fst (new_SndFileFilter (FdFile [] (Fixture.attrs_of []))
            {| sf_get_string := fun _ => None |}
            (Sndfile.mkSF_INFO 1000 44100 2 Sndfile.SF_FORMAT_WAV 1 1)
                    (Fixture.attrs_of [])))
  = (fst (new_SndFileFilter (FdFile [] (Fixture.attrs_of []))
            {| sf_get_string := fun _ => None |}
            (Sndfile.mkSF_INFO 1000 44100 2 Sndfile.SF_FORMAT_WAV 1 1)
                    (Fixture.attrs_of [])), true).
Proof.
  apply (proj1 (AddMoreSoundData_stalls
                  (fst (new_SndFileFilter (FdFile [] (Fixture.attrs_of []))
                          {| sf_get_string := fun _ => None |}
                          (Sndfile.mkSF_INFO 1000 44100 2 Sndfile.SF_FORMAT_WAV 1 1)
                    (Fixture.attrs_of [])))
                  0 ltac:(discriminate) ltac:(vm_compute; split; [discriminate | reflexivity]))).
Defined.

(** [Close] returns 0 or the negated [errno] of [close], and disables the
    writes of the encoder: what the encoder hands over afterwards, also
    through the producer, does not reach the buffer. *)
Theorem Close_stops_writes (h : t) (r : Z) (encoded : list byte) :
  snd (Close h) = match close (filedes_ h) with SysOk _ => 0 | SysErr e => - e end /\
  ConversionBuffer.B (output_buffer_ (fst (Close h))) = ConversionBuffer.B (output_buffer_ h) /\
  ConversionBuffer.SndfileWriteCallback encoded (output_buffer_ (fst (Close h)))
    = output_buffer_ (fst (Close h)) /\
  output_buffer_ (fst (AddMoreSoundData r encoded (fst (Close h))))
    = output_buffer_ (fst (Close h)).
Proof.
  split; [|split; [|split]].
  - unfold Close. cbn [snd]. now destruct (close (filedes_ h)).
  - reflexivity.
  - reflexivity.
  - unfold AddMoreSoundData.
    destruct (input_frames_left_ (fst (Close h)) =? 0); reflexivity.
Qed.

End FilterLife.

Section Tags.
Import Posix CInt SndFileFilter.

Lemma copy_tags_lookup (get : Z -> option string) (ids : list Z) :
  forall (e : encoder) (i : Z),
    enc_strings
      (fold_left (fun e i => match get i with
                             | Some s => sf_set_string i s e
                             | None => e
                             end) ids e) !! i =
    match (if decide (i ∈ ids) then get i else None) with
    | Some s => Some s
    | None => enc_strings e !! i
    end /\
    enc_header
      (fold_left (fun e i => match get i with
                             | Some s => sf_set_string i s e
                             | None => e
                             end) ids e) = enc_header e.
Proof.
  induction ids as [|a ids IH]; intros e i.
  - cbn [fold_left]. rewrite decide_False by apply not_elem_of_nil. now split.
  - cbn [fold_left]. destruct (IH (match get a with
                                   | Some s => sf_set_string a s e
                                   | None => e
                                   end) i) as [Hs Hh].
    rewrite Hs, Hh. split; [|now destruct (get a)].
    destruct (decide (i ∈ ids)) as [Hin|Hnin].
    + rewrite decide_True by (now apply list_elem_of_further).
      destruct (get i) as [s|] eqn:Hgi; [reflexivity|].
      destruct (get a) as [sa|] eqn:Hga; [|reflexivity].
      cbn [sf_set_string enc_strings]. apply lookup_insert_ne. congruence.
    + destruct (decide (i = a)) as [->|Hne].
      * rewrite decide_True by apply list_elem_of_here.
        destruct (get a) as [sa|]; [|reflexivity].
        cbn [sf_set_string enc_strings]. apply lookup_insert_eq.
      * rewrite decide_False by (rewrite elem_of_cons; tauto).
        destruct (get a) as [sa|]; [|reflexivity].
        cbn [sf_set_string enc_strings]. now apply lookup_insert_ne.
Qed.

Lemma tag_ids (i : Z) :
  i ∈ map (fun k => SF_STR_FIRST + Z.of_nat k) (seq 0 (Z.to_nat (SF_STR_LAST - SF_STR_FIRST + 1)))
  <-> SF_STR_FIRST <= i <= SF_STR_LAST.
Proof.
  change (map ?f ?l) with (f <$> l).
  rewrite list_elem_of_fmap. unfold SF_STR_FIRST, SF_STR_LAST. split.
  - intros [k [-> Hk]]. apply elem_of_seq in Hk. lia.
  - intros Hi. exists (Z.to_nat (i - 1)). split; [lia|]. apply elem_of_seq. lia.
Qed.

(** Where the header is not copied from a FLAC file: the string tags that
    the input has, ids [SF_STR_FIRST] to [SF_STR_LAST], are set on the
    encoder, its other tags stay, and the header that the encoder then
    writes is what the buffer receives; the writes are enabled and the
    payload starts where that header ends. *)
Theorem SetOutputSoundfile_generated_header
    (h : t) (out : ConversionBuffer.t) (snd_out : encoder) :
  copy_flac_header_ h = false ->
  exists snd_out' : encoder,
    snd_out_ (fst (SetOutputSoundfile h out (Some snd_out))) = Some snd_out' /\
    (forall i : Z,
       enc_strings snd_out' !! i =
         if decide (SF_STR_FIRST <= i <= SF_STR_LAST) then
           match sf_get_string (snd_in_ h) i with
           | Some s => Some s
           | None => enc_strings snd_out !! i
           end
         else enc_strings snd_out !! i) /\
    ConversionBuffer.B (snd (SetOutputSoundfile h out (Some snd_out))) =
      ConversionBuffer.B out ++ enc_header snd_out (enc_strings snd_out') /\
    ConversionBuffer.sndfile_writes_enabled (snd (SetOutputSoundfile h out (Some snd_out)))
      = true /\
    ConversionBuffer.header_finished (snd (SetOutputSoundfile h out (Some snd_out))) =
      Some (match ConversionBuffer.header_finished out with
            | Some off => off
            | None => ConversionBuffer.FileSize out
                      + Z.of_nat (length (enc_header snd_out (enc_strings snd_out')))
            end) /\
    error_ (fst (SetOutputSoundfile h out (Some snd_out))) = error_ h.
Proof.
  intros Hflac. unfold SetOutputSoundfile. rewrite Hflac.
  unfold GenerateHeaderFromInputFile.
  set (ids := map (fun k => SF_STR_FIRST + Z.of_nat k)
                  (seq 0 (Z.to_nat (SF_STR_LAST - SF_STR_FIRST + 1)))).
  set (f := fun (e : encoder) (i : Z) =>
              match sf_get_string (snd_in_ h) i with
              | Some s => sf_set_string i s e
              | None => e
              end).
  exists (header_written (fold_left f ids snd_out)).
  unfold sf_update_header_now.
  cbv beta iota zeta. cbn [fst snd snd_out_ set_snd_out error_ header_written enc_strings].
  split; [reflexivity|]. split; [|split; [|split; [|split]]].
  - intros i. destruct (copy_tags_lookup (sf_get_string (snd_in_ h)) ids snd_out i) as [Hs _].
    fold f in Hs. rewrite Hs.
    pose proof (tag_ids i) as Hids. fold ids in Hids.
    destruct (decide (SF_STR_FIRST <= i <= SF_STR_LAST)) as [Hin|Hout].
    + rewrite decide_True by (now apply Hids). reflexivity.
    + rewrite decide_False by (now rewrite Hids). reflexivity.
  - destruct (copy_tags_lookup (sf_get_string (snd_in_ h)) ids snd_out 0) as [_ Hh].
    fold f in Hh. rewrite Hh. reflexivity.
  - reflexivity.
  - destruct (copy_tags_lookup (sf_get_string (snd_in_ h)) ids snd_out 0) as [_ Hh].
    fold f in Hh. rewrite Hh.
    cbn. destruct (ConversionBuffer.header_finished out); [reflexivity|].
    unfold ConversionBuffer.FileSize. cbn. rewrite length_app. f_equal. lia.
  - reflexivity.
Qed.

(** A WAV file with a title (tag 1): the encoder writes a header that holds
    the title. *)
Lemma SetOutputSoundfile_generated_header_witness :
  exists snd_out' : encoder,
    enc_strings snd_out' !! 1 = Some "Title"%string /\
    ConversionBuffer.B
      (snd (SetOutputSoundfile
              (fst (new_SndFileFilter (FdFile [] (Fixture.attrs_of []))
                      {| sf_get_string := fun i => if i =? 1 then Some "Title"%string else None |}
                      (Sndfile.mkSF_INFO 1000 44100 2 Sndfile.SF_FORMAT_WAV 1 1)
                    (Fixture.attrs_of [])))
              ConversionBuffer.new_ConversionBuffer
              (Some {| enc_strings := ∅;
                       enc_header := fun tags => match tags !! 1 with
                                                 | Some _ => [x01]
                                                 | None => [x00]
                                                 end;
                       enc_header_written := false |})))
    = [x01].
Proof.
  destruct (SetOutputSoundfile_generated_header
              (fst (new_SndFileFilter (FdFile [] (Fixture.attrs_of []))
                      {| sf_get_string := fun i => if i =? 1 then Some "Title"%string else None |}
                      (Sndfile.mkSF_INFO 1000 44100 2 Sndfile.SF_FORMAT_WAV 1 1)
                    (Fixture.attrs_of [])))
              ConversionBuffer.new_ConversionBuffer
              {| enc_strings := ∅;
                 enc_header := fun tags => match tags !! 1 with
                                           | Some _ => [x01]
                                           | None => [x00]
                                           end;
                 enc_header_written := false |}
              eq_refl) as [e' (_ & Htags & HB & _)].
  exists e'. split.
  - rewrite Htags. reflexivity.
  - rewrite HB. cbn [ConversionBuffer.B ConversionBuffer.new_ConversionBuffer app enc_header].
    rewrite Htags. reflexivity.
Defined.

End Tags.

Section PassThroughRead.
Import Posix PassThroughFilter.

(** A pass-through read of fewer than [2^31] bytes returns the bytes of the
    file from [offset] on, [size] of them or as many as the file has, and
    their number; at or beyond the end of the file it returns 0. *)
Theorem passthrough_read_slice (content : list byte) (attrs : stat) (size offset : Z) :
  0 <= offset -> 0 <= size < 2 ^ 31 ->
  snd (Read (mk (FdFile content attrs)) size offset)
    = take (Z.to_nat size) (drop (Z.to_nat offset) content) /\
  fst (Read (mk (FdFile content attrs)) size offset)
    = Z.min size (Z.max 0 (Z.of_nat (length content) - offset)) /\
  (Z.of_nat (length content) <= offset ->
     Read (mk (FdFile content attrs)) size offset = (0, [])).
Proof.
  intros Ho Hs. rewrite passthrough_read_success by assumption. cbn [fst snd].
  split; [reflexivity|]. split.
  - rewrite length_take, length_drop. lia.
  - intros Hend. rewrite drop_ge by lia. now rewrite take_nil.
Qed.

(** A file of 1 KiB that starts with [hello]. *)
Lemma passthrough_read_slice_witness :
  Read (mk (FdFile ([x68; x65; x6c; x6c; x6f] ++ repeat x00 1019)
              {| st_mode := 33188; st_size := 1024; st_mtime := 0 |})) 5 0
  = (5, [x68; x65; x6c; x6c; x6f]).
Proof.
  destruct (passthrough_read_slice ([x68; x65; x6c; x6c; x6f] ++ repeat x00 1019)
              {| st_mode := 33188; st_size := 1024; st_mtime := 0 |} 5 0
              ltac:(lia) ltac:(lia)) as (Hd & Hn & _).
  rewrite (surjective_pairing (Read _ _ _)), Hd, Hn. reflexivity.
Defined.

End PassThroughRead.

(** ** More on the map of open files *)

Section LatestEntry.
Import FilterInterface.

Lemma run_snoc (calls : list call) (c : call) (s : state) :
  run (calls ++ [c]) s = step (run calls s) c.
Proof. unfold run. now rewrite fold_left_app. Qed.

Lemma create_filter_other (p fs_path : string) (ptr : filter_ptr) (s : state) :
  p <> fs_path ->
  open_files_ (fst (create_filter p ptr s)) !! fs_path = open_files_ s !! fs_path.
Proof. intros Hne. cbn [create_filter fst open_files_]. now apply lookup_insert_ne. Qed.

Lemma close_filter_other (p fs_path : string) (ptr : filter_ptr) (r : Z) (s : state) :
  p <> fs_path ->
  open_files_ (fst (close_filter p ptr r s)) !! fs_path = open_files_ s !! fs_path.
Proof.
  intros Hne. unfold close_filter. cbn [fst open_files_].
  destruct (open_files_ s !! p) as [found|]; [|reflexivity].
  destruct (decide (found = ptr)); [|reflexivity].
  now apply lookup_delete_ne.
Qed.

Lemma step_leaves_entry (fs_path : string) (ptr : filter_ptr) (c : call) (s : state) :
  leaves_entry fs_path ptr c ->
  open_files_ s !! fs_path = Some ptr ->
  open_files_ (step s c) !! fs_path = Some ptr.
Proof.
  intros Hc Hs. destruct c as [p f|p f]; cbn [step leaves_entry] in *.
  - now rewrite create_filter_other.
  - destruct (decide (p = fs_path)) as [->|Hne].
    + rewrite close_filter_entry, decide_False; [exact Hs|].
      rewrite Hs. intros [= ->]. now apply Hc.
    + now rewrite close_filter_other.
Qed.

(** The entry of a path, whatever the calls: the filter of the latest
    [create_filter] for the path, and there as long as no [close_filter] has
    come for the path with that filter. *)
Theorem open_files_entry_is_latest (calls : list call) (fs_path : string) (ptr : filter_ptr) :
  open_files_ (run calls initial) !! fs_path = Some ptr <->
  exists before after : list call,
    calls = before ++ CreateFilter fs_path ptr :: after /\
    Forall (leaves_entry fs_path ptr) after.
Proof.
  induction calls as [|c calls IH] using rev_ind.
  - split.
    + cbn. rewrite lookup_empty. discriminate.
    + intros (before & after & Heq & _). now destruct before.
  - rewrite run_snoc. split.
    + intros Hl. destruct c as [p f|p f]; cbn [step] in Hl.
      * destruct (decide (p = fs_path)) as [->|Hne].
        -- rewrite create_filter_entry in Hl. injection Hl as ->.
           exists calls, []. split; [reflexivity | constructor].
        -- rewrite create_filter_other in Hl by exact Hne.
           apply IH in Hl as (before & after & -> & Hafter).
           exists before, (after ++ [CreateFilter p f]). split.
           ++ now rewrite <- app_assoc.
           ++ apply Forall_app. split; [exact Hafter | repeat constructor; exact Hne].
      * assert (Hold : open_files_ (run calls initial) !! fs_path = Some ptr /\
                       ~ (p = fs_path /\ f = ptr)).
        { destruct (decide (p = fs_path)) as [->|Hne].
          - rewrite close_filter_entry in Hl.
            destruct (decide (open_files_ (run calls initial) !! fs_path = Some f))
              as [|Hnf]; [discriminate|].
            split; [exact Hl|]. intros [_ ->]. contradiction.
          - rewrite close_filter_other in Hl by exact Hne. split; [exact Hl | tauto]. }
        destruct Hold as [Hold Hnot].
        apply IH in Hold as (before & after & -> & Hafter).
        exists before, (after ++ [CloseFilter p f]). split.
        -- now rewrite <- app_assoc.
        -- apply Forall_app. split; [exact Hafter | repeat constructor; exact Hnot].
    + intros (before & after & Heq & Hafter).
      destruct after as [|c' after _] using rev_ind.
      * apply app_inj_tail in Heq as [-> ->]. cbn [step]. apply create_filter_entry.
      * rewrite app_comm_cons, app_assoc in Heq.
        apply app_inj_tail in Heq as [-> ->].
        apply Forall_app in Hafter as [Hafter Hc]. apply Forall_inv in Hc.
        apply step_leaves_entry; [exact Hc|].
        apply IH. now exists before, after.
Qed.

End LatestEntry.

(** ** The fragments of the processor *)

Section Channels.
Import SoundProcessor.
Local Open Scope nat_scope.

Lemma nth_insert {A} (l : list A) (i k : nat) (x d : A) :
  nth i (<[k := x]> l) d = if decide (k = i /\ i < length l) then x else nth i l d.
Proof.
  rewrite !nth_lookup, list_lookup_insert.
  destruct (decide (k = i /\ k < length l)) as [[-> Hk]|Hno].
  - now rewrite decide_True by (split; [reflexivity | exact Hk]).
  - rewrite decide_False; [reflexivity|]. intros [-> Hk]. apply Hno. now split.
Qed.

Lemma seq_snoc (n : nat) : seq 0 (S n) = seq 0 n ++ [n].
Proof. now rewrite seq_S. Qed.

Lemma frame_index_inj (n j ch j' ch' : nat) :
  ch < n -> ch' < n -> j * n + ch = j' * n + ch' -> j = j' /\ ch = ch'.
Proof.
  intros Hc Hc' Heq.
  assert (Hj : j = j').
  { destruct (Nat.lt_trichotomy j j') as [Hlt|[Heqj|Hgt]]; [|exact Heqj|].
    - pose proof (Nat.mul_le_mono_r (S j) j' n Hlt) as Hm. cbn [Nat.mul] in Hm. lia.
    - pose proof (Nat.mul_le_mono_r (S j') j n Hgt) as Hm. cbn [Nat.mul] in Hm. lia. }
  subst j'. split; [reflexivity | lia].
Qed.

(** *** Joining the channels *)

Lemma join_samples_length (n ch : nat) (source : list sample) (p : nat) :
  forall acc : list sample * sample,
    length (fst (fold_left (join_sample n ch source) (seq 0 p) acc)) = length (fst acc).
Proof.
  induction p as [|p IH]; intros acc; [reflexivity|].
  rewrite seq_snoc, fold_left_app. cbn [fold_left].
  destruct (fold_left (join_sample n ch source) (seq 0 p) acc) as [buf m] eqn:Hf.
  specialize (IH acc). rewrite Hf in IH. cbn [join_sample fst] in *.
  now rewrite length_insert.
Qed.

Lemma join_samples_kept (n ch : nat) (source : list sample) (p : nat) :
  forall (acc : list sample * sample) (i : nat) (d : sample),
    (forall j, j < p -> i <> j * n + ch) ->
    nth i (fst (fold_left (join_sample n ch source) (seq 0 p) acc)) d = nth i (fst acc) d.
Proof.
  induction p as [|p IH]; intros acc i d Hi; [reflexivity|].
  rewrite seq_snoc, fold_left_app. cbn [fold_left].
  specialize (IH acc i d ltac:(intros j Hj; apply Hi; lia)).
  destruct (fold_left (join_sample n ch source) (seq 0 p) acc) as [buf m].
  cbn [join_sample fst] in *. rewrite nth_insert, decide_False; [exact IH|].
  intros [Heq _]. apply (Hi p); lia.
Qed.

Lemma join_samples_written (n ch : nat) (source : list sample) (p : nat) :
  forall (acc : list sample * sample) (j : nat) (d : sample),
    0 < n -> j < p -> j * n + ch < length (fst acc) ->
    nth (j * n + ch) (fst (fold_left (join_sample n ch source) (seq 0 p) acc)) d =
      nth j source IEEE.fzero.
Proof.
  induction p as [|p IH]; intros acc j d Hn Hj Hlen; [lia|].
  rewrite seq_snoc, fold_left_app. cbn [fold_left].
  pose proof (join_samples_length n ch source p acc) as Hl.
  specialize (IH acc j d Hn).
  destruct (fold_left (join_sample n ch source) (seq 0 p) acc) as [buf m].
  cbn [join_sample fst] in *. rewrite nth_insert.
  destruct (decide (j = p)) as [->|Hne].
  - rewrite decide_True by lia. reflexivity.
  - rewrite decide_False; [apply IH; lia|].
    intros [Heq _]. apply Hne.
    apply (frame_index_inj n j 0 p 0); lia.
Qed.

Lemma join_channels_length (sp : t) (planes : list (list sample)) (k : nat) :
  forall acc : list sample * sample,
    length (fst (fold_left
                   (fun acc ch =>
                      fold_left (join_sample (output_channels sp) ch (nth ch planes []))
                                (seq 0 (input_pos_ sp)) acc)
                   (seq 0 k) acc)) = length (fst acc).
Proof.
  induction k as [|k IH]; intros acc; [reflexivity|].
  rewrite seq_snoc, fold_left_app. cbn [fold_left].
  now rewrite join_samples_length, IH.
Qed.

Lemma join_channels_kept (sp : t) (planes : list (list sample)) (k : nat) :
  forall (acc : list sample * sample) (i : nat) (d : sample),
    (forall j ch, j < input_pos_ sp -> ch < k -> i <> j * output_channels sp + ch) ->
    nth i (fst (fold_left
                  (fun acc ch =>
                     fold_left (join_sample (output_channels sp) ch (nth ch planes []))
                               (seq 0 (input_pos_ sp)) acc)
                  (seq 0 k) acc)) d = nth i (fst acc) d.
Proof.
  induction k as [|k IH]; intros acc i d Hi; [reflexivity|].
  rewrite seq_snoc, fold_left_app. cbn [fold_left].
  rewrite join_samples_kept by (intros j Hj; apply Hi; lia).
  apply IH. intros j ch Hj Hc. apply Hi; lia.
Qed.

Lemma join_channels_written (sp : t) (planes : list (list sample)) (k : nat) :
  forall (acc : list sample * sample) (j ch : nat) (d : sample),
    k <= output_channels sp -> j < input_pos_ sp -> ch < k ->
    j * output_channels sp + ch < length (fst acc) ->
    nth (j * output_channels sp + ch)
        (fst (fold_left
                (fun acc ch =>
                   fold_left (join_sample (output_channels sp) ch (nth ch planes []))
                             (seq 0 (input_pos_ sp)) acc)
                (seq 0 k) acc)) d =
      nth j (nth ch planes []) IEEE.fzero.
Proof.
  induction k as [|k IH]; intros acc j ch d Hk Hj Hc Hlen; [lia|].
  rewrite seq_snoc, fold_left_app. cbn [fold_left].
  destruct (decide (ch = k)) as [->|Hne].
  - apply join_samples_written; [lia | exact Hj |].
    now rewrite join_channels_length.
  - rewrite join_samples_kept.
    + apply IH; lia.
    + intros j' Hj' Heq.
      apply (frame_index_inj (output_channels sp) j ch j' k) in Heq; lia.
Qed.


(** *** Zero-filling and flattening *)

Lemma zero_samples_length (start len : nat) (buf : list sample) :
  length (zero_samples start len buf) = length buf.
Proof.
  unfold zero_samples. revert buf. induction len as [|len IH]; intros buf; [reflexivity|].
  rewrite seq_S, fold_left_app. cbn [fold_left]. now rewrite length_insert.
Qed.

Lemma zero_samples_nth (start len : nat) (buf : list sample) (i : nat) (d : sample) :
  nth i (zero_samples start len buf) d =
    if decide (start <= i < start + len /\ i < length buf) then IEEE.fzero else nth i buf d.
Proof.
  unfold zero_samples. induction len as [|len IH].
  - cbn [seq fold_left]. rewrite decide_False by lia. reflexivity.
  - rewrite seq_S, fold_left_app. cbn [fold_left].
    rewrite nth_insert, IH.
    pose proof (zero_samples_length start len buf) as Hl. unfold zero_samples in Hl.
    rewrite Hl.
    destruct (decide (start + len = i /\ i < length buf)) as [[<- Hi]|Hno].
    + rewrite decide_True by lia. reflexivity.
    + destruct (decide (start <= i < start + len /\ i < length buf)) as [Hin|Hout].
      * rewrite decide_True by lia. reflexivity.
      * rewrite decide_False by lia. reflexivity.
Qed.

Lemma flatten_plane_length (n ch p : nat) (buffer : list sample) :
  forall dest : list sample,
    length (fold_left (fun dest j => <[j := nth (j * n + ch) buffer IEEE.fzero]> dest)
                      (seq 0 p) dest) = length dest.
Proof.
  induction p as [|p IH]; intros dest; [reflexivity|].
  rewrite seq_snoc, fold_left_app. cbn [fold_left]. now rewrite length_insert.
Qed.

Lemma flatten_plane_nth (n ch p : nat) (buffer : list sample) :
  forall (dest : list sample) (j : nat) (d : sample),
    nth j (fold_left (fun dest j => <[j := nth (j * n + ch) buffer IEEE.fzero]> dest)
                     (seq 0 p) dest) d =
      if decide (j < p /\ j < length dest) then nth (j * n + ch) buffer IEEE.fzero
      else nth j dest d.
Proof.
  induction p as [|p IH]; intros dest j d.
  - cbn [seq fold_left]. rewrite decide_False by lia. reflexivity.
  - rewrite seq_snoc, fold_left_app. cbn [fold_left].
    rewrite nth_insert, IH, flatten_plane_length.
    destruct (decide (p = j /\ j < length dest)) as [[<- Hj]|Hno].
    + rewrite decide_True by lia. reflexivity.
    + destruct (decide (j < p /\ j < length dest)) as [Hin|Hout].
      * rewrite decide_True by lia. reflexivity.
      * rewrite decide_False by lia. reflexivity.
Qed.

Lemma flatten_channels_fold (sp : t) (k : nat) :
  forall (planes : list (list sample)) (ch : nat),
    length (fold_left
              (fun planes ch =>
                 <[ch := fold_left
                           (fun dest j =>
                              <[j := nth (j * input_channels sp + ch) (buffer_ sp) IEEE.fzero]> dest)
                           (seq 0 (input_pos_ sp)) (nth ch planes [])]> planes)
              (seq 0 k) planes) = length planes /\
    nth ch (fold_left
              (fun planes ch =>
                 <[ch := fold_left
                           (fun dest j =>
                              <[j := nth (j * input_channels sp + ch) (buffer_ sp) IEEE.fzero]> dest)
                           (seq 0 (input_pos_ sp)) (nth ch planes [])]> planes)
              (seq 0 k) planes) [] =
      if decide (ch < k /\ ch < length planes)
      then fold_left
             (fun dest j =>
                <[j := nth (j * input_channels sp + ch) (buffer_ sp) IEEE.fzero]> dest)
             (seq 0 (input_pos_ sp)) (nth ch planes [])
      else nth ch planes [].
Proof.
  induction k as [|k IH]; intros planes ch.
  - cbn [seq fold_left]. rewrite decide_False by lia. now split.
  - rewrite seq_snoc, fold_left_app. cbn [fold_left].
    destruct (IH planes ch) as [Hl Hn]. destruct (IH planes k) as [_ Hk].
    rewrite length_insert. split; [exact Hl|].
    rewrite nth_insert, Hl, Hn, Hk.
    destruct (decide (k = ch /\ ch < length planes)) as [[<- Hc]|Hno].
    + rewrite decide_False by lia. rewrite decide_True by lia. reflexivity.
    + destruct (decide (ch < k /\ ch < length planes)) as [Hin|Hout].
      * rewrite decide_True by lia. reflexivity.
      * rewrite decide_False by lia. reflexivity.
Qed.

Lemma flatten_channels_nth (sp : t) (planes : list (list sample)) (j ch : nat) :
  j < input_pos_ sp -> ch < input_channels sp ->
  ch < length planes -> j < length (nth ch planes []) ->
  nth j (nth ch (flatten_channels sp planes) []) IEEE.fzero =
    nth (j * input_channels sp + ch) (buffer_ sp) IEEE.fzero.
Proof.
  intros Hj Hc Hp Hl. unfold flatten_channels.
  destruct (flatten_channels_fold sp (input_channels sp) planes ch) as [_ Hn].
  rewrite Hn, decide_True by lia.
  rewrite flatten_plane_nth, decide_True by lia. reflexivity.
Qed.

Lemma flatten_channels_length (sp : t) (planes : list (list sample)) :
  length (flatten_channels sp planes) = length planes.
Proof.
  unfold flatten_channels.
  now destruct (flatten_channels_fold sp (input_channels sp) planes 0) as [Hl _].
Qed.

End Channels.

Section ProcessFrames.
Import SoundProcessor.
Local Open Scope nat_scope.

Lemma padded_buffer_length (sp : t) : length (padded_buffer sp) = length (buffer_ sp).
Proof.
  unfold padded_buffer. destruct (fragm sp - input_pos_ sp =? 0); [reflexivity|].
  apply zero_samples_length.
Qed.

Lemma padded_buffer_nth (sp : t) (i : nat) (d : sample) :
  input_pos_ sp <= fragm sp ->
  nth i (padded_buffer sp) d =
    if decide (input_pos_ sp * input_channels sp <= i < fragm sp * input_channels sp
               /\ i < length (buffer_ sp))
    then IEEE.fzero else nth i (buffer_ sp) d.
Proof.
  intros Hle. unfold padded_buffer.
  destruct (Nat.eqb_spec (fragm sp - input_pos_ sp) 0) as [Hz|Hnz].
  - assert (fragm sp = input_pos_ sp) as -> by lia.
    rewrite decide_False by lia. reflexivity.
  - rewrite zero_samples_nth.
    replace (input_pos_ sp * input_channels sp
             + (fragm sp - input_pos_ sp) * input_channels sp)
      with (fragm sp * input_channels sp) by nia.
    reflexivity.
Qed.

Lemma frame_index_bound (n p j ch : nat) : j < p -> ch < n -> j * n + ch < p * n.
Proof.
  intros Hj Hc. pose proof (Nat.mul_le_mono_r (S j) p n Hj) as Hm.
  cbn [Nat.mul] in Hm. lia.
Qed.

(** What [Process] is made of: the convolver runs on the flattened padded
    buffer, and the buffer afterwards is the padded one with the output
    planes joined in. *)
Lemma Process_parts (process : Convproc -> Convproc) (sp : t) :
  let sp1 := {| fragm := fragm sp; ninp := ninp sp; nout := nout sp;
                convproc := convproc sp; buffer_ := padded_buffer sp;
                input_pos_ := input_pos_ sp; output_pos_ := output_pos_ sp;
                max_out_value_observed_ := max_out_value_observed_ sp |} in
  convproc (Process process sp) =
    process {| inpdata := flatten_channels sp1 (inpdata (convproc sp));
               outdata := outdata (convproc sp) |} /\
  buffer_ (Process process sp) =
    fst (join_channels sp1 (outdata (convproc (Process process sp)))
           (padded_buffer sp) (max_out_value_observed_ sp)) /\
  fragm (Process process sp) = fragm sp /\
  ninp (Process process sp) = ninp sp /\
  nout (Process process sp) = nout sp /\
  input_pos_ (Process process sp) = input_pos_ sp /\
  output_pos_ (Process process sp) = 0%Z.
Proof.
  cbv zeta. unfold Process, padded_buffer. cbn [convproc buffer_ max_out_value_observed_].
  destruct (join_channels _ _ _ _) as [buffer max_out] eqn:Hj.
  cbn [convproc buffer_ fragm ninp nout input_pos_ output_pos_].
  repeat split. now rewrite Hj.
Qed.

Lemma Process_buffer_written (process : Convproc -> Convproc) (sp : t) (j ch : nat) :
  j < input_pos_ sp -> ch < output_channels sp ->
  j * output_channels sp + ch < length (buffer_ sp) ->
  nth (j * output_channels sp + ch) (buffer_ (Process process sp)) IEEE.fzero =
    nth j (nth ch (outdata (convproc (Process process sp))) []) IEEE.fzero.
Proof.
  intros Hj Hc Hlen.
  destruct (Process_parts process sp) as (_ & Hb & _).
  rewrite Hb. unfold join_channels. cbn [output_channels nout input_pos_].
  change (nout sp) with (output_channels sp).
  apply (join_channels_written
           {| fragm := fragm sp; ninp := ninp sp; nout := nout sp;
              convproc := convproc sp; buffer_ := padded_buffer sp;
              input_pos_ := input_pos_ sp; output_pos_ := output_pos_ sp;
              max_out_value_observed_ := max_out_value_observed_ sp |});
    unfold output_channels in *; cbn [nout input_pos_ fst]; try lia.
  now rewrite padded_buffer_length.
Qed.

Lemma Process_buffer_length (process : Convproc -> Convproc) (sp : t) :
  length (buffer_ (Process process sp)) = length (buffer_ sp).
Proof.
  destruct (Process_parts process sp) as (_ & Hb & _).
  rewrite Hb. unfold join_channels.
  rewrite (join_channels_length
             {| fragm := fragm sp; ninp := ninp sp; nout := nout sp;
                convproc := convproc sp; buffer_ := padded_buffer sp;
                input_pos_ := input_pos_ sp; output_pos_ := output_pos_ sp;
                max_out_value_observed_ := max_out_value_observed_ sp |}).
  apply padded_buffer_length.
Qed.

(** After [Process] the frames read lie in the buffer as the convolver's
    output, interleaved: sample [j] of output plane [ch] at index
    [j * channels + ch].  The buffer keeps its length, the position for
    writing is 0 and the position for reading is where it was. *)
Theorem Process_interleaves (process : Convproc -> Convproc) (sp : t) (j ch : nat) :
  j < input_pos_ sp -> ch < output_channels sp ->
  j * output_channels sp + ch < length (buffer_ sp) ->
  nth (j * output_channels sp + ch) (buffer_ (Process process sp)) IEEE.fzero =
    nth j (nth ch (outdata (convproc (Process process sp))) []) IEEE.fzero /\
  length (buffer_ (Process process sp)) = length (buffer_ sp) /\
  output_pos_ (Process process sp) = 0%Z /\
  input_pos_ (Process process sp) = input_pos_ sp.
Proof.
  intros Hj Hc Hlen.
  destruct (Process_parts process sp) as (_ & _ & _ & _ & _ & Hi & Ho).
  split; [now apply Process_buffer_written|].
  split; [apply Process_buffer_length|]. split; [exact Ho | exact Hi].
Qed.

(** What the convolver is run on: plane [ch] of its input holds, at [j], the
    sample of frame [j] and channel [ch] of the buffer, for the frames read;
    its output planes are handed to it as they were. *)
Theorem Process_flattens (process : Convproc -> Convproc) (sp : t) :
  input_pos_ sp <= fragm sp ->
  exists flat : list (list sample),
    convproc (Process process sp) =
      process {| inpdata := flat; outdata := outdata (convproc sp) |} /\
    length flat = length (inpdata (convproc sp)) /\
    forall j ch : nat,
      j < input_pos_ sp -> ch < input_channels sp ->
      ch < length (inpdata (convproc sp)) ->
      j < length (nth ch (inpdata (convproc sp)) []) ->
      nth j (nth ch flat []) IEEE.fzero =
        nth (j * input_channels sp + ch) (buffer_ sp) IEEE.fzero.
Proof.
  intros Hle. destruct (Process_parts process sp) as (Hconv & _).
  eexists. split; [exact Hconv|]. split; [apply flatten_channels_length|].
  intros j ch Hj Hc Hp Hl.
  rewrite flatten_channels_nth; cbn [input_pos_ input_channels ninp buffer_]; try assumption.
  rewrite padded_buffer_nth by exact Hle.
  rewrite decide_False; [reflexivity|].
  pose proof (frame_index_bound (input_channels sp) (input_pos_ sp) j ch Hj Hc).
  unfold input_channels in *. lia.
Qed.

End ProcessFrames.

Section Fragments.
Import SoundProcessor.
Local Open Scope nat_scope.

(** With a convolver that hands its input on as its output, and as many
    channels out as in, [Process] leaves the frames read as they are, makes
    the rest of the fragment zero and leaves what lies beyond the fragment. *)
Theorem Process_pass_through (sp : t) (i : nat) :
  ninp sp = nout sp -> 0 < nout sp ->
  input_pos_ sp <= fragm sp ->
  nout sp <= length (inpdata (convproc sp)) ->
  (forall ch, ch < nout sp -> input_pos_ sp <= length (nth ch (inpdata (convproc sp)) [])) ->
  i < length (buffer_ sp) ->
  nth i (buffer_ (Process (fun c => {| inpdata := inpdata c; outdata := inpdata c |}) sp))
      IEEE.fzero =
    if decide (input_pos_ sp * nout sp <= i < fragm sp * nout sp)
    then IEEE.fzero else nth i (buffer_ sp) IEEE.fzero.
Proof.
  intros Hch Hn Hle Hplanes Hlen Hi.
  set (pass := fun c : Convproc => {| inpdata := inpdata c; outdata := inpdata c |}).
  destruct (Process_parts pass sp) as (Hconv & Hb & _).
  cbv zeta in Hconv, Hb.
  set (sp1 := {| fragm := fragm sp; ninp := ninp sp; nout := nout sp;
                 convproc := convproc sp; buffer_ := padded_buffer sp;
                 input_pos_ := input_pos_ sp; output_pos_ := output_pos_ sp;
                 max_out_value_observed_ := max_out_value_observed_ sp |}) in *.
  destruct (decide (i < input_pos_ sp * nout sp)) as [Hin|Hout].
  - rewrite decide_False by lia.
    pose proof (Nat.div_mod_eq i (nout sp)) as Hdm.
    assert (Hj : i / nout sp < input_pos_ sp)
      by (apply Nat.Div0.div_lt_upper_bound; lia).
    assert (Hc : i mod nout sp < nout sp) by (apply Nat.mod_upper_bound; lia).
    assert (Hidx : i = i / nout sp * nout sp + i mod nout sp) by lia.
    pose proof (Process_buffer_written pass sp (i / nout sp) (i mod nout sp)) as Hw.
    unfold output_channels in Hw.
    specialize (Hw ltac:(lia) ltac:(lia) ltac:(lia)). rewrite <- Hidx in Hw. rewrite Hw, Hconv.
    cbn [pass outdata inpdata].
    rewrite flatten_channels_nth;
      unfold input_channels; cbn [sp1 input_pos_ ninp buffer_]; try lia.
    + rewrite padded_buffer_nth by exact Hle. unfold input_channels.
      rewrite Hch, <- Hidx. rewrite decide_False by lia. reflexivity.
    + specialize (Hlen (i mod nout sp) Hc). lia.
  - rewrite Hb. unfold join_channels.
    rewrite (join_channels_kept sp1).
    + cbn [fst]. rewrite padded_buffer_nth by exact Hle. unfold input_channels.
      rewrite Hch.
      destruct (decide (input_pos_ sp * nout sp <= i < fragm sp * nout sp)) as [Hz|Hnz].
      * rewrite decide_True by lia. reflexivity.
      * rewrite decide_False by lia. reflexivity.
    + intros j ch Hj Hc Heq. unfold output_channels in *. cbn [sp1 nout input_pos_] in *.
      pose proof (frame_index_bound (nout sp) (input_pos_ sp) j ch Hj Hc). lia.
Qed.

(** Writing the processed frames in two parts is writing them at once: the
    same output, the same processor afterwards, and the assertion fails for
    the one as for the other.  The convolver runs for the first part only. *)
Theorem WriteProcessed_in_parts (process : Convproc -> Convproc) (output : list sample)
    (n1 n2 : nat) (sp : t) :
  match WriteProcessed process output n1 sp with
  | Some (sp1, output1) =>
      WriteProcessed process output1 n2 sp1 = WriteProcessed process output (n1 + n2) sp
  | None => WriteProcessed process output (n1 + n2) sp = None
  end.
Proof.
  unfold WriteProcessed at 1 3 4.
  set (sp0 := if (output_pos_ sp <? 0)%Z then Process process sp else sp).
  assert (Hpos : (0 <= output_pos_ sp0)%Z).
  { subst sp0. destruct (Z.ltb_spec (output_pos_ sp) 0) as [_|Hge]; [|exact Hge].
    destruct (Process_parts process sp) as (_ & _ & _ & _ & _ & _ & ->). lia. }
  destruct (Z.leb_spec (Z.of_nat n1) (Z.of_nat (fragm sp0) - output_pos_ sp0)) as [H1|H1].
  - unfold WriteProcessed.
    cbn [output_pos_ fragm nout output_channels buffer_ input_pos_ convproc
         max_out_value_observed_ ninp].
    destruct (Z.ltb_spec (output_pos_ sp0 + Z.of_nat n1) 0) as [|_]; [lia|].
    cbn [output_pos_ fragm nout output_channels buffer_ input_pos_ convproc
         max_out_value_observed_ ninp].
    destruct (Z.leb_spec (Z.of_nat n2)
                (Z.of_nat (fragm sp0) - (output_pos_ sp0 + Z.of_nat n1))) as [H2|H2].
    + destruct (Z.leb_spec (Z.of_nat (n1 + n2)) (Z.of_nat (fragm sp0) - output_pos_ sp0))
        as [_|]; [|lia].
      f_equal. f_equal.
      * f_equal; [|lia].
        destruct (Z.eqb_spec (output_pos_ sp0 + Z.of_nat n1) (Z.of_nat (fragm sp0)))
          as [He1|He1];
        destruct (Z.eqb_spec (output_pos_ sp0 + Z.of_nat n1 + Z.of_nat n2)
                    (Z.of_nat (fragm sp0))) as [He2|He2];
        destruct (Z.eqb_spec (output_pos_ sp0 + Z.of_nat (n1 + n2))
                    (Z.of_nat (fragm sp0))) as [He3|He3]; try reflexivity; lia.
      * unfold sf_writef_float, output_channels. rewrite <- app_assoc. f_equal.
        replace (Z.to_nat (output_pos_ sp0 + Z.of_nat n1) * nout sp0)
          with (Z.to_nat (output_pos_ sp0) * nout sp0 + n1 * nout sp0) by nia.
        rewrite <- drop_drop, take_take_drop. f_equal. nia.
    + destruct (Z.leb_spec (Z.of_nat (n1 + n2)) (Z.of_nat (fragm sp0) - output_pos_ sp0))
        as [|_]; [lia | reflexivity].
  - destruct (Z.leb_spec (Z.of_nat (n1 + n2)) (Z.of_nat (fragm sp0) - output_pos_ sp0))
      as [|_]; [lia | reflexivity].
Qed.

End Fragments.

Section Filling.
Import SoundProcessor.
Local Open Scope nat_scope.

(** [FillBuffer] fails its assertion exactly when [input_pos_] is [fragm].
    Below [fragm] it reads whole frames, as many as the fragment still takes
    or as the input has, puts them behind the frames already there, which
    stay, takes them off the input, moves the position for reading on by
    their number, not beyond the fragment, and asks for [Process].  With
    [input_pos_] beyond [fragm] the assertion passes, a negative number of
    frames is asked for and nothing is read: input, buffer and position stay,
    and [Process] is asked for. *)
Theorem FillBuffer_reads (input : list sample) (sp : t) :
  (FillBuffer input sp = None <-> input_pos_ sp = fragm sp) /\
  forall (sp' : t) (input' : list sample) (r : nat),
    FillBuffer input sp = Some (sp', input', r) ->
    r = Nat.min (fragm sp - input_pos_ sp) (length input / input_channels sp) /\
    input = take (r * input_channels sp) input ++ input' /\
    input_pos_ sp' = input_pos_ sp + r /\
    (input_pos_ sp < fragm sp -> input_pos_ sp' <= fragm sp) /\
    (fragm sp < input_pos_ sp ->
       r = 0 /\ input' = input /\ buffer_ sp' = buffer_ sp /\ input_pos_ sp' = input_pos_ sp) /\
    output_pos_ sp' = (-1)%Z /\
    length (buffer_ sp') = length (buffer_ sp) /\
    (forall i, i < r * input_channels sp ->
       input_pos_ sp * input_channels sp + i < length (buffer_ sp) ->
       nth (input_pos_ sp * input_channels sp + i) (buffer_ sp') IEEE.fzero
       = nth i input IEEE.fzero) /\
    (forall i, i < input_pos_ sp * input_channels sp ->
       nth i (buffer_ sp') IEEE.fzero = nth i (buffer_ sp) IEEE.fzero).
Proof.
  unfold FillBuffer, sf_readf_float. cbv zeta.
  replace (Z.to_nat (Z.of_nat (fragm sp) - Z.of_nat (input_pos_ sp)))
    with (fragm sp - input_pos_ sp) by lia.
  destruct (Z.eqb_spec (Z.of_nat (fragm sp) - Z.of_nat (input_pos_ sp)) 0) as [Hz|Hnz].
  - split; [split; [lia | reflexivity]|]. discriminate.
  - split; [split; [discriminate | lia]|].
    intros sp' input' r [= <- <- <-].
    cbn [input_pos_ output_pos_ buffer_].
    set (r := Nat.min (fragm sp - input_pos_ sp) (length input / input_channels sp)).
    assert (Hr : r * input_channels sp <= length input).
    { destruct (input_channels sp) as [|n] eqn:Hn; [lia|].
      pose proof (Nat.Div0.mul_div_le (length input) (S n)) as Hd.
      assert (r <= length input / S n) by (subst r; lia). nia. }
    split; [reflexivity|]. split; [now rewrite take_drop|]. split; [reflexivity|].
    split; [lia|]. split; [|split; [reflexivity|split; [|split]]].
    + intros Hbeyond. assert (Hr0 : r = 0) by (subst r; lia).
      rewrite Hr0. cbn [Nat.mul take drop list_inserts]. repeat split. lia.
    + apply length_inserts.
    + intros i Hi Hlen. rewrite !nth_lookup.
      rewrite list_lookup_inserts by (rewrite ?length_take; lia).
      replace (input_pos_ sp * input_channels sp + i - input_pos_ sp * input_channels sp)
        with i by lia.
      now rewrite lookup_take_lt by lia.
    + intros i Hi. rewrite !nth_lookup. now rewrite list_lookup_inserts_lt by lia.
Qed.

Lemma FillBuffer_Some (input : list sample) (sp : t) :
  input_pos_ sp < fragm sp ->
  exists sp' : t,
    FillBuffer input sp =
      Some (sp',
            drop (Nat.min (fragm sp - input_pos_ sp) (length input / input_channels sp)
                  * input_channels sp) input,
            Nat.min (fragm sp - input_pos_ sp) (length input / input_channels sp)) /\
    fragm sp' = fragm sp /\ ninp sp' = ninp sp /\ nout sp' = nout sp /\
    input_pos_ sp' =
      input_pos_ sp + Nat.min (fragm sp - input_pos_ sp) (length input / input_channels sp) /\
    output_pos_ sp' = (-1)%Z.
Proof.
  intros Hlt. unfold FillBuffer, sf_readf_float. cbv zeta.
  replace (Z.to_nat (Z.of_nat (fragm sp) - Z.of_nat (input_pos_ sp)))
    with (fragm sp - input_pos_ sp) by lia.
  destruct (Z.eqb_spec (Z.of_nat (fragm sp) - Z.of_nat (input_pos_ sp)) 0) as [|_]; [lia|].
  eexists. split; [reflexivity|]. repeat split.
Qed.

Lemma WriteProcessed_Some (process : Convproc -> Convproc) (output : list sample)
    (n : nat) (sp : t) :
  (output_pos_ sp < 0)%Z -> n <= fragm sp ->
  exists sp' : t,
    WriteProcessed process output n sp =
      Some (sp', output ++ take (n * output_channels sp) (buffer_ (Process process sp))) /\
    fragm sp' = fragm sp /\
    input_pos_ sp' = (if n =? fragm sp then 0 else input_pos_ sp) /\
    output_pos_ sp' = Z.of_nat n.
Proof.
  intros Hneg Hn. unfold WriteProcessed.
  destruct (Z.ltb_spec (output_pos_ sp) 0) as [_|]; [|lia].
  destruct (Process_parts process sp) as (_ & _ & HF & _ & HN & HI & HO).
  rewrite HO, HF. unfold output_channels. rewrite HN.
  destruct (Z.leb_spec (Z.of_nat n) (Z.of_nat (fragm sp) - 0)) as [_|]; [|lia].
  eexists. split; [reflexivity|]. cbn [fragm input_pos_ output_pos_].
  repeat split.
  rewrite HI, Z.add_0_l.
  destruct (Z.eqb_spec (Z.of_nat n) (Z.of_nat (fragm sp))) as [He|He];
    destruct (Nat.eqb_spec n (fragm sp)) as [Hn'|Hn']; try reflexivity; lia.
Qed.

(** One round for a full fragment, from an empty buffer and with the input
    holding a fragment or more: [FillBuffer] reads a fragment,
    [WriteProcessed] writes as many frames as were read, the buffer as
    [Process] left it, and the buffer is free for the next [FillBuffer]. *)
Theorem fragment_round (process : Convproc -> Convproc) (input output : list sample)
    (sp : t) :
  input_pos_ sp = 0 -> 0 < fragm sp -> 0 < input_channels sp ->
  fragm sp * input_channels sp <= length input ->
  exists sp1 sp2 : t,
    FillBuffer input sp = Some (sp1, drop (fragm sp * input_channels sp) input, fragm sp) /\
    WriteProcessed process output (fragm sp) sp1 =
      Some (sp2, output ++ take (fragm sp * output_channels sp)
                                (buffer_ (Process process sp1))) /\
    input_pos_ sp2 = 0 /\
    output_pos_ sp2 = Z.of_nat (fragm sp) /\
    FillBuffer (drop (fragm sp * input_channels sp) input) sp2 <> None.
Proof.
  intros Hpos Hf Hc Hlen.
  assert (Hr : Nat.min (fragm sp - input_pos_ sp) (length input / input_channels sp) = fragm sp).
  { rewrite Hpos, Nat.sub_0_r. apply Nat.min_l.
    apply Nat.div_le_lower_bound; lia. }
  destruct (FillBuffer_Some input sp ltac:(lia)) as (sp1 & HFill & HF1 & _ & HN1 & HI1 & HO1).
  rewrite Hr in HFill.
  destruct (WriteProcessed_Some process output (fragm sp) sp1 ltac:(lia) ltac:(lia))
    as (sp2 & HW & HF2 & HI2 & HO2).
  exists sp1, sp2. split; [exact HFill|]. split; [|split; [|split]].
  - rewrite HW. unfold output_channels. now rewrite HN1.
  - rewrite HI2, HF1, Nat.eqb_refl. reflexivity.
  - exact HO2.
  - destruct (FillBuffer_Some (drop (fragm sp * input_channels sp) input) sp2)
      as (sp3 & HFill2 & _).
    + rewrite HI2, HF1, Nat.eqb_refl, HF2, HF1. exact Hf.
    + rewrite HFill2. discriminate.
Qed.

End Filling.

(** *** The theorems on a fragment of two frames *)

Section FragmentSamples.
Import SoundProcessor FixtureSamples.
Local Open Scope nat_scope.

(** One frame read and a convolver that exchanges the channels: the left
    sample of the frame in the buffer is the first of the left output
    plane. *)
Lemma Process_interleaves_witness :
  nth 0 (buffer_ (Process swap_channels one_frame_read)) IEEE.fzero =
    nth 0 (nth 0 (outdata (convproc (Process swap_channels one_frame_read))) []) IEEE.fzero.
Proof.
  exact (proj1 (Process_interleaves swap_channels one_frame_read 0 0
                  ltac:(cbn; lia) ltac:(cbn; lia) ltac:(cbn; lia))).
Defined.

Lemma Process_flattens_witness :
  exists flat : list (list sample),
    convproc (Process swap_channels one_frame_read) =
      swap_channels {| inpdata := flat; outdata := outdata (convproc one_frame_read) |} /\
    nth 0 (nth 1 flat []) IEEE.fzero = s0_5.
Proof.
  destruct (Process_flattens swap_channels one_frame_read ltac:(cbn; lia))
    as (flat & Hconv & _ & Hflat).
  exists flat. split; [exact Hconv|].
  rewrite (Hflat 0 1) by (cbn; lia). reflexivity.
Defined.

(** One frame read and a convolver that hands its input on: the second
    frame of the fragment is zero afterwards. *)
Lemma Process_pass_through_witness :
  nth 2 (buffer_ (Process hand_on one_frame_read)) IEEE.fzero = IEEE.fzero.
Proof.
  unfold hand_on.
  rewrite (Process_pass_through one_frame_read 2 eq_refl ltac:(cbn; lia) ltac:(cbn; lia)
             ltac:(cbn; lia)
             ltac:(intros [|[|ch]] Hch; cbn in *; lia)
             ltac:(cbn; lia)).
  reflexivity.
Defined.

(** One frame read, one more to go, and an input of a frame and a half: one
    frame is read and half a frame stays. *)
Lemma FillBuffer_reads_witness :
  exists (sp' : SoundProcessor.t) (r : nat),
    FillBuffer [s0_75; s0_5; s0_25] one_frame_read = Some (sp', [s0_25], r) /\
    r = 1 /\ input_pos_ sp' = 2.
Proof.
  eexists. eexists. split; [reflexivity|].
  destruct (proj2 (FillBuffer_reads [s0_75; s0_5; s0_25] one_frame_read) _ _ _ eq_refl)
    as (Hr & _ & Hpos & _).
  split; [exact Hr | exact Hpos].
Defined.

(** Nothing read and an input of two frames and a half. *)
Lemma fragment_round_witness :
  exists sp1 sp2 : SoundProcessor.t,
    FillBuffer [s0_25; s0_5; s0_75; s0_125; s0_25] nothing_read
      = Some (sp1, [s0_25], 2) /\
    input_pos_ sp2 = 0 /\
    output_pos_ sp2 = 2%Z.
Proof.
  destruct (fragment_round swap_channels [s0_25; s0_5; s0_75; s0_125; s0_25] [] nothing_read
              eq_refl ltac:(cbn; lia) ltac:(cbn; lia) ltac:(cbn; lia))
    as (sp1 & sp2 & HFill & _ & Hin & Hout & _).
  exists sp1, sp2. split; [exact HFill|]. split; [exact Hin | exact Hout].
Defined.

End FragmentSamples.
